(** * LiveGo client: sync engine, push-event channel and framework hooks

    A shallow embedding of
      - [src/core/component.ts]  (class [LiveGoComponent], the sync engine),
      - [src/core/stream.ts]     (class [LiveGoStream], the push channel),
      - [src/vue/index.ts] and the React hook ([useLiveGo]),
      - [src/core/config.ts]     (the global configuration) and the
        transport (class [LiveGoClient]),
    together with the properties the specification states about them and
    further properties read off the code.

    JavaScript objects are records, [Set]s of callbacks are duplicate-free
    lists in insertion order, the [Map] of per-type listeners is a [gmap],
    and code that mutates [this], writes to the console, talks to the
    transport or calls user callbacks runs in a state-and-exception monad
    whose state survives a [throw], as it does in JavaScript. *)

From stdpp Require Import gmap strings list pretty.

Open Scope string_scope.
Open Scope list_scope.

(** ** Values *)

(** TypeScript's [any], restricted to JSON-shaped data. *)
#[local] Unset Elimination Schemes.
Inductive any : Type :=
| JNull
| JBool (b : bool)
| JNum (z : Z)
| JStr (s : string)
| JArr (items : list any)
| JObj (fields : list (string * any)).
#[local] Set Elimination Schemes.

(** [ErrorResponse] of [types.ts]. *)
Record ErrorResponse : Type := {
  error : string;
  message : string;
  code : Z;
  details : option any;
}.

(** What a JavaScript [throw] (or a rejected promise) can carry. *)
Inductive exn : Type :=
| Error (msg : string)            (* new Error(msg) *)
| SyntaxError                     (* thrown by JSON.parse *)
| ErrorPayload (e : ErrorResponse)(* thrown by LiveGoClient on a non-ok response *)
| Thrown (v : any).               (* anything else *)

(** ** The effect monad *)

Inductive result (A : Type) : Type :=
| Ok (a : A)
| Raise (e : exn).
Arguments Ok {A} a.
Arguments Raise {A} e.

Definition M (S A : Type) : Type := S -> result A * S.

Definition ret {S A : Type} (a : A) : M S A := fun s => (Ok a, s).

Definition bind {S A B : Type} (m : M S A) (k : A -> M S B) : M S B :=
  fun s => match m s with
           | (Ok a, s') => k a s'
           | (Raise e, s') => (Raise e, s')
           end.

Definition throw {S A : Type} (e : exn) : M S A := fun s => (Raise e, s).

(** [try { body } catch (e) { handler e }] *)
Definition try_catch {S A : Type} (body : M S A) (handler : exn -> M S A) : M S A :=
  fun s => match body s with
           | (Ok a, s') => (Ok a, s')
           | (Raise e, s') => handler e s'
           end.

(** [try { body } finally { fin }] with a [fin] that does not throw. *)
Definition try_finally {S A : Type} (body : M S A) (fin : S -> S) : M S A :=
  fun s => let '(r, s') := body s in (r, fin s').

Definition get {S : Type} : M S S := fun s => (Ok s, s).
Definition modify {S : Type} (f : S -> S) : M S unit := fun s => (Ok tt, f s).

Notation "x <- m ;; k" := (bind m (fun x => k))
  (at level 100, m at next level, right associativity, only parsing).
Notation "m ;;; k" := (bind m (fun _ => k))
  (at level 100, right associativity, only parsing).

(** [Array.prototype.forEach] / [Set.prototype.forEach]: the elements in
    order; an exception leaving [f] ends the iteration. *)
Fixpoint forEach {S A : Type} (l : list A) (f : A -> M S unit) : M S unit :=
  match l with
  | [] => ret tt
  | x :: l' => f x ;;; forEach l' f
  end.

(** [when b m]: [if (b) { m }]. *)
Definition when {S : Type} (b : bool) (m : M S unit) : M S unit :=
  if b then m else ret tt.

(** [a || b] on strings: the empty string is falsy. *)
Definition or_else (a b : string) : string :=
  if String.eqb a "" then b else a.

(** ** Callbacks

    A callback is an opaque function value: an identity (what [Set] and
    [===] compare) and, for each argument, whether the call returns or
    throws. Callbacks do not call back into the object that invokes them. *)
Record Callback (A : Type) : Type := {
  cb_id : nat;
  cb_run : A -> option exn;
}.
Arguments cb_id {A} c.
Arguments cb_run {A} c args.

Definition same_cb {A : Type} (c d : Callback A) : bool :=
  Nat.eqb (cb_id c) (cb_id d).

(** [Set.prototype.add]: appended unless already a member. *)
Definition set_add {A : Type} (c : Callback A) (s : list (Callback A)) : list (Callback A) :=
  if existsb (same_cb c) s then s else s ++ [c].

(** [Set.prototype.delete] *)
Definition set_delete {A : Type} (c : Callback A) (s : list (Callback A)) : list (Callback A) :=
  filter (fun d => negb (same_cb c d)) s.

(** The outcome of a call, as a computation. *)
Definition outcome {S : Type} (o : option exn) : M S unit :=
  match o with
  | None => ret tt
  | Some e => throw e
  end.

(** ** The sync engine: [src/core/component.ts] *)

Module Component.

(** [types.ts] *)
Record ComponentMemo : Type := {
  memo_id : string;
  memo_name : string;
  memo_path : string;
  memo_method : string;
  memo_children : list string;
  memo_data : any;
}.

Record ComponentSnapshot : Type := {
  state : any;
  memo : ComponentMemo;
  checksum : string;
}.

Record Effects : Type := {
  dirty : list string;
  dispatches : list any;
  redirects : option string;
  html : option string;
}.

Inductive UpdateType : Type := callMethod | syncInput.

(** [Update.payload]: every field is optional in the source type. *)
Record Payload : Type := {
  method : option string;
  params : option (list any);
  field : option string;
  value : option any;
}.

Record Update : Type := {
  type : UpdateType;
  payload : Payload;
}.

Record UpdateRequest : Type := {
  req_snapshot : ComponentSnapshot;
  req_updates : list Update;
}.

Record UpdateResponse : Type := {
  snapshot : ComponentSnapshot;
  effects : Effects;
}.

Record MountRequest : Type := {
  component : string;
  props : any;
}.

Record MountResponse : Type := {
  mount_snapshot : ComponentSnapshot;
}.

(** An element of the argument of [batch]:
    [{ type: 'call' | 'set'; [key: string]: any }]. *)
Inductive OperationType : Type := op_call | op_set.

Record Operation : Type := {
  op_type : OperationType;
  op_method : option string;
  op_params : option (list any);
  op_field : option string;
  op_value : option any;
}.

(** [UpdateCallback = (state, effects) => void] *)
Definition UpdateCallback : Type := Callback (any * Effects).

(** The private fields of [LiveGoComponent] that the methods below touch
    ([client] is the transport, which lives in the environment). *)
Record LiveGoComponent : Type := {
  this_snapshot : ComponentSnapshot;
  updateCallbacks : list UpdateCallback;
}.

(** What the environment sees the engine do. [Invoke] also records the
    snapshot that was current while the callback ran. *)
Inductive obs : Type :=
| client_mount (req : MountRequest)
| client_update (req : UpdateRequest)
| Invoke (cb : nat) (st : any) (eff : Effects) (current : ComponentSnapshot)
| console_error (msg : string).

Record World : Type := {
  this : LiveGoComponent;
  log : list obs;
}.

Definition emit (o : obs) : M World unit :=
  modify (fun w => {| this := this w; log := log w ++ [o] |}).

Definition set_snapshot (s : ComponentSnapshot) : M World unit :=
  modify (fun w => {| this := {| this_snapshot := s;
                                 updateCallbacks := updateCallbacks (this w) |};
                      log := log w |}).

Definition set_updateCallbacks (l : list UpdateCallback) : M World unit :=
  modify (fun w => {| this := {| this_snapshot := this_snapshot (this w);
                                 updateCallbacks := l |};
                      log := log w |}).

(** Calling [callback(state, effects)]. *)
Definition invoke (cb : UpdateCallback) (st : any) (eff : Effects) : M World unit :=
  w <- get ;;
  emit (Invoke (cb_id cb) st eff (this_snapshot (this w))) ;;;
  outcome (cb_run cb (st, eff)).

(** [getState()], [getId()], [getName()], [getSnapshot()] *)
Definition getState (c : LiveGoComponent) : any := state (this_snapshot c).
Definition getId (c : LiveGoComponent) : string := memo_id (memo (this_snapshot c)).
Definition getName (c : LiveGoComponent) : string := memo_name (memo (this_snapshot c)).
Definition getSnapshot (c : LiveGoComponent) : ComponentSnapshot := this_snapshot c.

(** [notifyUpdate(state, effects)] *)
Definition notifyUpdate (st : any) (eff : Effects) : M World unit :=
  w <- get ;;
  forEach (updateCallbacks (this w)) (fun callback =>
    try_catch (invoke callback st eff)
              (fun _ => emit (console_error "Error in LiveGo update callback:"))).

(** [sendUpdates(updates)] is an async function with one [await]. What runs
    before the [await] builds the request from the snapshot current at that
    moment and hands it to [client.update]; what runs after it is the
    continuation, resumed with the settled promise. *)
Definition sendUpdates_request (updates : list Update) : M World unit :=
  w <- get ;;
  emit (client_update {| req_snapshot := this_snapshot (this w);
                         req_updates := updates |}).

Definition sendUpdates_resume (settled : exn + UpdateResponse) : M World unit :=
  match settled with
  | inl e => throw e
  | inr response =>
      set_snapshot (snapshot response) ;;;
      notifyUpdate (state (snapshot response)) (effects response)
  end.

(** [call(method, ...params)] up to its [await]. *)
Definition call (m : string) (ps : list any) : M World unit :=
  sendUpdates_request
    [ {| type := callMethod;
         payload := {| method := Some m; params := Some ps;
                       field := None; value := None |} |} ].

(** [set(field, value)] up to its [await]. *)
Definition set (f : string) (v : any) : M World unit :=
  sendUpdates_request
    [ {| type := syncInput;
         payload := {| method := None; params := None;
                       field := Some f; value := Some v |} |} ].

(** The arrow function mapped over [operations] in [batch];
    [op.params || []] replaces a missing [params] (arrays are truthy). *)
Definition to_update (op : Operation) : Update :=
  match op_type op with
  | op_call =>
      {| type := callMethod;
         payload := {| method := op_method op;
                       params := Some (default [] (op_params op));
                       field := None; value := None |} |}
  | op_set =>
      {| type := syncInput;
         payload := {| method := None; params := None;
                       field := op_field op; value := op_value op |} |}
  end.

(** [batch(operations)] up to its [await]. *)
Definition batch (operations : list Operation) : M World unit :=
  sendUpdates_request (map to_update operations).

(** [onUpdate(callback)] and the unsubscribe closure it returns. *)
Definition onUpdate (callback : UpdateCallback) : M World unit :=
  w <- get ;;
  set_updateCallbacks (set_add callback (updateCallbacks (this w))).

Definition unsubscribe (callback : UpdateCallback) : M World unit :=
  w <- get ;;
  set_updateCallbacks (set_delete callback (updateCallbacks (this w))).

(** [clearListeners()] *)
Definition clearListeners : M World unit := set_updateCallbacks [].

(** [static mount(componentName, props, options)]: one [client.mount] call;
    the constructor runs on the response. *)
Definition mount (componentName : string) (ps : any)
    (settled : exn + MountResponse) (l : list obs)
  : result LiveGoComponent * list obs :=
  let l' := l ++ [client_mount {| component := componentName; props := ps |}] in
  match settled with
  | inl e => (Raise e, l')
  | inr response =>
      (Ok {| this_snapshot := mount_snapshot response; updateCallbacks := [] |}, l')
  end.

(** *** Runs of the engine

    What can happen to a mounted instance, one step at a time: a caller
    starts an operation, a pending [client.update] promise settles, a
    subscriber comes or goes. Overlapping round trips are interleavings. *)
Inductive action : Type :=
| do_call (m : string) (ps : list any)
| do_set (f : string) (v : any)
| do_batch (ops : list Operation)
| resolved (response : UpdateResponse)
| rejected (e : exn)
| do_onUpdate (cb : UpdateCallback)
| do_unsubscribe (cb : UpdateCallback)
| do_clearListeners.

Definition perform (a : action) : M World unit :=
  match a with
  | do_call m ps => call m ps
  | do_set f v => set f v
  | do_batch ops => batch ops
  | resolved response => sendUpdates_resume (inr response)
  | rejected e => sendUpdates_resume (inl e)
  | do_onUpdate cb => onUpdate cb
  | do_unsubscribe cb => unsubscribe cb
  | do_clearListeners => clearListeners
  end.

Definition step (a : action) (w : World) : World := snd (perform a w).

Definition run (acts : list action) (w : World) : World :=
  fold_left (fun w a => step a w) acts w.

(** The response adopted last along a run, if any. *)
Fixpoint last_accepted (acts : list action) (acc : option UpdateResponse)
  : option UpdateResponse :=
  match acts with
  | [] => acc
  | resolved r :: acts' => last_accepted acts' (Some r)
  | _ :: acts' => last_accepted acts' acc
  end.

(** The callback calls recorded in a log, in order. *)
Definition is_invoke (o : obs) : bool :=
  match o with Invoke _ _ _ _ => true | _ => false end.

Definition is_client_update (o : obs) : bool :=
  match o with client_update _ => true | _ => false end.

Definition is_client_call (o : obs) : bool :=
  match o with client_update _ | client_mount _ => true | _ => false end.

(** The update the specification asks for an operation of [batch]: the tag
    that corresponds to the operation's kind, with the operation's own
    method and params, or field and value. *)
Definition translated (op : Operation) : Update :=
  match op_type op with
  | op_call =>
      {| type := callMethod;
         payload := {| method := op_method op;
                       params := Some (match op_params op with
                                       | Some ps => ps
                                       | None => []
                                       end);
                       field := None; value := None |} |}
  | op_set =>
      {| type := syncInput;
         payload := {| method := None; params := None;
                       field := op_field op; value := op_value op |} |}
  end.

(** An operation whose request is rejected with [e]: the same [e] comes
    back, the engine is as it was, and after the request nothing more is
    written, so no subscriber is called. *)
Definition rejection_surfaced (start : M World unit) (e : exn) (w : World) : Prop :=
  let out := (start ;;; sendUpdates_resume (inl e)) w in
  fst out = Raise e
  /\ this (snd out) = this w
  /\ (exists req, log (snd out) = log w ++ [client_update req])
  /\ filter (fun o => is_invoke o) (log (snd out))
     = filter (fun o => is_invoke o) (log w).

(** What one [notifyUpdate] writes: for each subscriber its call and, when
    the call throws, the [console.error] of the [catch]. *)
Definition notify_entries (cbs : list UpdateCallback) (st : any) (eff : Effects)
    (current : ComponentSnapshot) : list obs :=
  flat_map (fun cb =>
              Invoke (cb_id cb) st eff current ::
              match cb_run cb (st, eff) with
              | Some _ => [console_error "Error in LiveGo update callback:"]
              | None => []
              end) cbs.

(** *** Stand-ins for scenarios *)

Definition quiet_cb (n : nat) : UpdateCallback :=
  {| cb_id := n; cb_run := fun _ => None |}.

Definition raising_cb (n : nat) : UpdateCallback :=
  {| cb_id := n; cb_run := fun _ => Some (Error "subscriber failed") |}.

Definition a_snapshot (n : Z) : ComponentSnapshot :=
  {| state := JObj [("count", JNum n)];
     memo := {| memo_id := "c1"; memo_name := "Counter"; memo_path := "";
                memo_method := "POST"; memo_children := []; memo_data := JObj [] |};
     checksum := "x" |}.

Definition no_effects : Effects :=
  {| dirty := []; dispatches := []; redirects := None; html := None |}.

(** *** Vocabulary for runs *)

(** The identities of the subscribers. *)
Definition subscriber_ids (c : LiveGoComponent) : list nat :=
  map cb_id (updateCallbacks c).

(** [a] registers a subscriber of identity [n]. *)
Definition registers (n : nat) (a : action) : bool :=
  match a with
  | do_onUpdate cb => Nat.eqb (cb_id cb) n
  | _ => false
  end.

Definition is_registration (a : action) : bool :=
  match a with do_onUpdate _ => true | _ => false end.

(** A call of the subscriber of identity [n]. *)
Definition is_invoke_of (n : nat) (o : obs) : bool :=
  match o with Invoke m _ _ _ => Nat.eqb m n | _ => false end.

(** The identities called, in the order of the log. *)
Definition invoked_ids (l : list obs) : list nat :=
  omap (fun o => match o with Invoke m _ _ _ => Some m | _ => None end) l.

(** The snapshot a run leaves current. *)
Definition current_after (acts : list action) (w : World) : ComponentSnapshot :=
  match last_accepted acts None with
  | Some r => snapshot r
  | None => this_snapshot (this w)
  end.

End Component.

(** ** The push-event channel: [src/core/stream.ts] *)

Module Stream.

(** [StreamEvent] of [types.ts]; [id] is filled from [event.lastEventId]. *)
Record StreamEvent : Type := {
  event : string;
  data : any;
  id : string;
}.

(** The browser's [MessageEvent], as far as [handleMessage] reads it. *)
Record MessageEvent : Type := {
  ev_data : string;
  lastEventId : string;
}.

(** [StreamOptions] of [types.ts]; [None] is an absent key. *)
Record StreamOptions : Type := {
  endpoint : option string;
  onEvent : option (Callback StreamEvent);
  onError : option (Callback exn);
  onConnect : option (Callback unit);
  onDisconnect : option (Callback unit);
  reconnect : option bool;
  reconnectInterval : option Z;
}.

(** The browser's [EventSource]: its address and the event types for which
    [addEventListener] was called. [connect] installs [onopen], [onerror]
    and [onmessage] on every source it creates. *)
Record EventSource : Type := {
  url : string;
  es_types : list string;
}.

Definition Listener : Type := Callback any.

(** The fields of [LiveGoStream]. *)
Record LiveGoStream : Type := {
  eventSource : option EventSource;
  reconnectTimeout : option positive;
  listeners : gmap string (list Listener);
  componentId : string;
  signature : string;
  baseUrl : string;
  options : StreamOptions;
  reconnectAttempts : nat;
  maxReconnectAttempts : nat;
}.

(** What the environment sees the channel do. *)
Inductive obs : Type :=
| new_EventSource (u : string)
| es_close
| window_setTimeout (t : positive) (delay : Z)
| window_clearTimeout (t : positive)
| call_onConnect
| call_onDisconnect
| call_onError (e : exn)
| call_onEvent (ev : StreamEvent)
| call_listener (type : string) (cb : nat) (d : any)
| console_error (msg : string).

(** The channel object together with the browser's timer table: the
    pending timers with their delays, and the next timer id ([setTimeout]
    returns positive integers). *)
Record World : Type := {
  this : LiveGoStream;
  timers : list (positive * Z);
  next_timer : positive;
  log : list obs;
}.

Definition with_this (f : LiveGoStream -> LiveGoStream) : M World unit :=
  modify (fun w => {| this := f (this w); timers := timers w;
                      next_timer := next_timer w; log := log w |}).

Definition emit (o : obs) : M World unit :=
  modify (fun w => {| this := this w; timers := timers w;
                      next_timer := next_timer w; log := log w ++ [o] |}).

(** Assignments to the fields of [this]. *)
Definition upd_eventSource (v : option EventSource) (s : LiveGoStream) : LiveGoStream :=
  {| eventSource := v; reconnectTimeout := reconnectTimeout s;
     listeners := listeners s; componentId := componentId s;
     signature := signature s; baseUrl := baseUrl s; options := options s;
     reconnectAttempts := reconnectAttempts s;
     maxReconnectAttempts := maxReconnectAttempts s |}.

Definition upd_reconnectTimeout (v : option positive) (s : LiveGoStream) : LiveGoStream :=
  {| eventSource := eventSource s; reconnectTimeout := v;
     listeners := listeners s; componentId := componentId s;
     signature := signature s; baseUrl := baseUrl s; options := options s;
     reconnectAttempts := reconnectAttempts s;
     maxReconnectAttempts := maxReconnectAttempts s |}.

Definition upd_listeners (v : gmap string (list Listener)) (s : LiveGoStream) : LiveGoStream :=
  {| eventSource := eventSource s; reconnectTimeout := reconnectTimeout s;
     listeners := v; componentId := componentId s;
     signature := signature s; baseUrl := baseUrl s; options := options s;
     reconnectAttempts := reconnectAttempts s;
     maxReconnectAttempts := maxReconnectAttempts s |}.

Definition upd_reconnectAttempts (v : nat) (s : LiveGoStream) : LiveGoStream :=
  {| eventSource := eventSource s; reconnectTimeout := reconnectTimeout s;
     listeners := listeners s; componentId := componentId s;
     signature := signature s; baseUrl := baseUrl s; options := options s;
     reconnectAttempts := v;
     maxReconnectAttempts := maxReconnectAttempts s |}.

Definition set_eventSource (v : option EventSource) : M World unit :=
  with_this (upd_eventSource v).

Definition set_reconnectTimeout (v : option positive) : M World unit :=
  with_this (upd_reconnectTimeout v).

Definition set_listeners (v : gmap string (list Listener)) : M World unit :=
  with_this (upd_listeners v).

Definition set_reconnectAttempts (v : nat) : M World unit :=
  with_this (upd_reconnectAttempts v).

(** Dropping a timer from the table of pending timers. *)
Definition without_timer (t : positive) (ts : list (positive * Z)) : list (positive * Z) :=
  filter (fun p => negb (Pos.eqb (fst p) t)) ts.

(** [window.setTimeout(callback, delay)]: a fresh id, the timer pending. *)
Definition setTimeout (delay : Z) : M World positive :=
  fun w =>
    let t := next_timer w in
    (Ok t, {| this := this w; timers := timers w ++ [(t, delay)];
              next_timer := Pos.succ t;
              log := log w ++ [window_setTimeout t delay] |}).

(** [clearTimeout(id)]: the timer, if still pending, is dropped. *)
Definition clearTimeout (t : positive) : M World unit :=
  fun w =>
    (Ok tt, {| this := this w;
               timers := without_timer t (timers w);
               next_timer := next_timer w;
               log := log w ++ [window_clearTimeout t] |}).

(** [this.options.onX?.(arg)] *)
Definition optional_call {A : Type} (cb : option (Callback A)) (o : obs) (arg : A)
  : M World unit :=
  match cb with
  | None => ret tt
  | Some f => emit o ;;; outcome (cb_run f arg)
  end.

(** [a || b] on strings: the empty string is falsy. *)
Definition or_string (a : option string) (b : string) : string :=
  match a with
  | Some s => if String.eqb s "" then b else s
  | None => b
  end.

(** The constructor; [getEndpoint()] reads the global configuration. *)
Definition new_LiveGoStream (getEndpoint : string) (cid sig : string)
    (opts : StreamOptions) : LiveGoStream :=
  {| eventSource := None;
     reconnectTimeout := None;
     listeners := ∅;
     componentId := cid;
     signature := sig;
     baseUrl := or_string (endpoint opts) getEndpoint;
     options := {| endpoint := endpoint opts;
                   onEvent := onEvent opts;
                   onError := onError opts;
                   onConnect := onConnect opts;
                   onDisconnect := onDisconnect opts;
                   reconnect := Some (default true (reconnect opts));
                   reconnectInterval := Some (default 1000%Z (reconnectInterval opts)) |};
     reconnectAttempts := 0;
     maxReconnectAttempts := 5 |}.

Definition new_World (s : LiveGoStream) : World :=
  {| this := s; timers := []; next_timer := 1%positive; log := [] |}.

(** The event types of [setupEventListeners]. *)
Definition eventTypes : list string :=
  ["connected"; "text-chunk"; "progress"; "notification";
   "generation-complete"; "upload-complete"].

(** [setupEventListeners()] *)
Definition setupEventListeners : M World unit :=
  w <- get ;;
  match eventSource (this w) with
  | None => ret tt
  | Some _ =>
      forEach eventTypes (fun eventType =>
        w <- get ;;
        match eventSource (this w) with
        | Some es =>
            set_eventSource
              (Some {| url := url es; es_types := es_types es ++ [eventType] |})
        | None => ret tt
        end)
  end.

(** The address [connect] opens. *)
Definition stream_url (s : LiveGoStream) : string :=
  (baseUrl s ++ "/livego/stream?component_id=" ++ componentId s
   ++ "&signature=" ++ signature s)%string.

(** [connect()] *)
Definition connect : M World unit :=
  w <- get ;;
  match eventSource (this w) with
  | Some _ => ret tt
  | None =>
      let u := stream_url (this w) in
      emit (new_EventSource u) ;;;
      set_eventSource (Some {| url := u; es_types := [] |}) ;;;
      setupEventListeners
  end.

(** [disconnect()] *)
Definition disconnect : M World unit :=
  w <- get ;;
  match reconnectTimeout (this w) with
  | Some t => clearTimeout t ;;; set_reconnectTimeout None
  | None => ret tt
  end ;;;
  w <- get ;;
  match eventSource (this w) with
  | Some _ =>
      emit es_close ;;;
      set_eventSource None ;;;
      optional_call (onDisconnect (options (this w))) call_onDisconnect tt
  | None => ret tt
  end ;;;
  set_listeners ∅.

(** The callback handed to [window.setTimeout] in [onerror]. *)
Definition reconnect_timer : M World unit :=
  disconnect ;;; connect.

(** The [onopen] handler. *)
Definition onopen : M World unit :=
  set_reconnectAttempts 0 ;;;
  w <- get ;;
  optional_call (onConnect (options (this w))) call_onConnect tt.

(** The [onerror] handler. The delay is computed after the increment:
    [reconnectInterval * Math.pow(2, reconnectAttempts - 1)]. *)
Definition onerror : M World unit :=
  emit (console_error "SSE connection error:") ;;;
  w <- get ;;
  optional_call (onError (options (this w)))
                (call_onError (Error "SSE connection error"))
                (Error "SSE connection error") ;;;
  w <- get ;;
  if default false (reconnect (options (this w)))
     && Nat.ltb (reconnectAttempts (this w)) (maxReconnectAttempts (this w))
  then
    set_reconnectAttempts (reconnectAttempts (this w) + 1)%nat ;;;
    w <- get ;;
    t <- setTimeout (default 0%Z (reconnectInterval (options (this w)))
                     * 2 ^ (Z.of_nat (reconnectAttempts (this w)) - 1))%Z ;;
    set_reconnectTimeout (Some t)
  else
    disconnect.

Section Parser.

(** [JSON.parse], a builtin: [None] where it throws a [SyntaxError]. *)
Variable JSON_parse : string -> option any.

(** [handleMessage(event, eventType?)] *)
Definition handleMessage (ev : MessageEvent) (eventType : option string)
  : M World unit :=
  try_catch
    (d <- match JSON_parse (ev_data ev) with
          | Some d => ret d
          | None => throw SyntaxError
          end ;;
     let streamEvent := {| event := or_string eventType "message";
                           data := d;
                           id := lastEventId ev |} in
     w <- get ;;
     optional_call (onEvent (options (this w))) (call_onEvent streamEvent)
                   streamEvent ;;;
     w <- get ;;
     match listeners (this w) !! event streamEvent with
     | Some ls =>
         forEach ls (fun callback =>
           emit (call_listener (event streamEvent) (cb_id callback)
                               (data streamEvent)) ;;;
           outcome (cb_run callback (data streamEvent)))
     | None => ret tt
     end)
    (fun _ => emit (console_error "Failed to parse SSE message:")).

(** The [onmessage] handler and the listener added for [eventType]. *)
Definition onmessage (ev : MessageEvent) : M World unit :=
  handleMessage ev None.

Definition named_listener (eventType : string) (ev : MessageEvent) : M World unit :=
  handleMessage ev (Some eventType).

(** [on(event, callback)] and the unsubscribe closure it returns. *)
Definition on (e : string) (callback : Listener) : M World unit :=
  w <- get ;;
  let m := match listeners (this w) !! e with
           | Some _ => listeners (this w)
           | None => <[e := []]> (listeners (this w))
           end in
  set_listeners (<[e := set_add callback (default [] (m !! e))]> m).

Definition unsubscribe (e : string) (callback : Listener) : M World unit :=
  w <- get ;;
  match listeners (this w) !! e with
  | Some ls =>
      let ls' := set_delete callback ls in
      if Nat.eqb (length ls') 0
      then set_listeners (delete e (listeners (this w)))
      else set_listeners (<[e := ls']> (listeners (this w)))
  | None => ret tt
  end.

(** [off(event, callback?)] *)
Definition off (e : string) (callback : option Listener) : M World unit :=
  w <- get ;;
  match callback with
  | Some cb =>
      match listeners (this w) !! e with
      | Some ls => set_listeners (<[e := set_delete cb ls]> (listeners (this w)))
      | None => ret tt
      end
  | None => set_listeners (delete e (listeners (this w)))
  end.

(** *** The browser side

    The current [EventSource] fires an event of some type: an [open], an
    [error], a [message] (a frame without a name, or named [message]) or a
    frame named otherwise, which reaches the channel only through a
    listener added for exactly that type. *)
Definition fire (type : string) (ev : MessageEvent) : M World unit :=
  w <- get ;;
  match eventSource (this w) with
  | None => ret tt
  | Some es =>
      when (String.eqb type "open") onopen ;;;
      when (String.eqb type "error") onerror ;;;
      when (String.eqb type "message") (onmessage ev) ;;;
      when (existsb (String.eqb type) (es_types es)) (named_listener type ev)
  end.

(** A pending timer expires: it leaves the timer table and its callback
    runs. *)
Definition expire (t : positive) : M World unit :=
  fun w =>
    reconnect_timer
      {| this := this w;
         timers := without_timer t (timers w);
         next_timer := next_timer w; log := log w |}.

(** What can happen to a channel: calls of its public methods, events of
    its current source, expiry of a pending timer. *)
Inductive happening : Type :=
| do_connect
| do_disconnect
| do_on (e : string) (cb : Listener)
| do_unsubscribe (e : string) (cb : Listener)
| do_off (e : string) (cb : option Listener)
| fires (type : string) (ev : MessageEvent)
| expires (t : positive).

Definition perform (h : happening) : M World unit :=
  match h with
  | do_connect => connect
  | do_disconnect => disconnect
  | do_on e cb => on e cb
  | do_unsubscribe e cb => unsubscribe e cb
  | do_off e cb => off e cb
  | fires type ev => fire type ev
  | expires t => expire t
  end.

(** A source event needs a source, an expiry a pending timer. *)
Definition possible (h : happening) (w : World) : bool :=
  match h with
  | fires _ _ => bool_decide (is_Some (eventSource (this w)))
  | expires t => existsb (fun p => Pos.eqb (fst p) t) (timers w)
  | _ => true
  end.

(** An exception that leaves a handler or a method is reported to whoever
    called; the channel goes on from the state it was left in. *)
Definition step (h : happening) (w : World) : World := snd (perform h w).

Fixpoint run (hs : list happening) (w : World) : option World :=
  match hs with
  | [] => Some w
  | h :: hs' => if possible h w then run hs' (step h w) else None
  end.

End Parser.

(** The number of [error] events since the last [open] along a run. *)
Fixpoint consecutive_errors (hs : list happening) (acc : nat) : nat :=
  match hs with
  | [] => acc
  | fires type _ :: hs' =>
      if String.eqb type "open" then consecutive_errors hs' 0
      else if String.eqb type "error" then consecutive_errors hs' (S acc)
      else consecutive_errors hs' acc
  | _ :: hs' => consecutive_errors hs' acc
  end.

(** [w] with [new] appended to its log. *)
Definition add_log (new : list obs) (w : World) : World :=
  {| this := this w; timers := timers w; next_timer := next_timer w;
     log := log w ++ new |}.

(** What the loop over the listeners of one type writes, and how it ends:
    the listeners are called in order up to the first that throws. *)
Fixpoint delivered (type : string) (d : any) (ls : list Listener)
  : list obs * option exn :=
  match ls with
  | [] => ([], None)
  | cb :: ls' =>
      match cb_run cb d with
      | Some e => ([call_listener type (cb_id cb) d], Some e)
      | None =>
          let '(l, r) := delivered type d ls' in
          (call_listener type (cb_id cb) d :: l, r)
      end
  end.

Definition parse_failure : obs := console_error "Failed to parse SSE message:".

(** What one [handleMessage] writes. *)
Definition handled (JSON_parse : string -> option any) (s : LiveGoStream)
    (ev : MessageEvent) (eventType : option string) : list obs :=
  match JSON_parse (ev_data ev) with
  | None => [parse_failure]
  | Some d =>
      let streamEvent := {| event := or_string eventType "message";
                            data := d; id := lastEventId ev |} in
      let to_listeners :=
        match listeners s !! event streamEvent with
        | Some ls =>
            fst (delivered (event streamEvent) d ls)
            ++ match snd (delivered (event streamEvent) d ls) with
               | Some _ => [parse_failure]
               | None => []
               end
        | None => []
        end in
      match onEvent (options s) with
      | None => to_listeners
      | Some f =>
          call_onEvent streamEvent ::
          match cb_run f streamEvent with
          | Some _ => [parse_failure]
          | None => to_listeners
          end
      end
  end.

(** Between two happenings, a source listens for exactly the event types
    of [setupEventListeners]. *)
Definition es_ok (w : World) : Prop :=
  forall es, eventSource (this w) = Some es -> es_types es = eventTypes.

(** A configured callback that returns normally whenever it is called. *)
Definition returns {A : Type} (c : option (Callback A)) : Prop :=
  forall cb arg, c = Some cb -> cb_run cb arg = None.

(** What a [disconnect] writes when the disconnect callback returns. *)
Definition disconnect_entries (s : LiveGoStream) : list obs :=
  match reconnectTimeout s with
  | Some t => [window_clearTimeout t]
  | None => []
  end
  ++ match eventSource s with
     | Some _ =>
         es_close :: match onDisconnect (options s) with
                     | Some _ => [call_onDisconnect]
                     | None => []
                     end
     | None => []
     end.

(** What [onerror] writes before it decides whether to retry. *)
Definition error_entries (s : LiveGoStream) : list obs :=
  console_error "SSE connection error:" ::
  match onError (options s) with
  | Some _ => [call_onError (Error "SSE connection error")]
  | None => []
  end.

(** The test of [onerror]:
    [this.options.reconnect && this.reconnectAttempts < this.maxReconnectAttempts]. *)
Definition will_retry (s : LiveGoStream) : bool :=
  default false (reconnect (options s))
  && Nat.ltb (reconnectAttempts s) (maxReconnectAttempts s).

(** The timer table after [disconnect]: the recorded timer is cancelled. *)
Definition disconnect_timers (w : World) : list (positive * Z) :=
  match reconnectTimeout (this w) with
  | Some t => without_timer t (timers w)
  | None => timers w
  end.

(** Calls of the channel's methods, as opposed to what the browser does. *)
Definition is_method (h : happening) : bool :=
  match h with
  | fires _ _ | expires _ => false
  | _ => true
  end.

(** Runs in which nobody registers a listener. *)
Definition is_registration (h : happening) : bool :=
  match h with do_on _ _ => true | _ => false end.

Definition no_registration (hs : list happening) : bool :=
  forallb (fun h => negb (is_registration h)) hs.

(** A recorded reconnect timer belongs to a source that is still there. *)
Definition timeout_has_source (w : World) : Prop :=
  is_Some (reconnectTimeout (this w)) -> is_Some (eventSource (this w)).

(** The channel after [disconnect(); connect()] when the disconnect
    callback returns: a new source, nothing recorded, nobody registered. *)
Definition reopened (w : World) : World :=
  {| this := upd_eventSource
               (Some {| url := stream_url (this w); es_types := eventTypes |})
               (upd_listeners ∅
                  (upd_eventSource None (upd_reconnectTimeout None (this w))));
     timers := disconnect_timers w;
     next_timer := next_timer w;
     log := log w ++ disconnect_entries (this w)
            ++ [new_EventSource (stream_url (this w))] |}.

(** The types under which the channel ever dispatches. *)
Definition dispatched_types : list string := "message" :: eventTypes.

(** A log entry of a dispatch names a dispatched type. *)
Definition dispatch_typed (o : obs) : Prop :=
  match o with
  | call_listener type _ _ => type ∈ dispatched_types
  | call_onEvent ev => event ev ∈ dispatched_types
  | _ => True
  end.

Definition is_call_listener (o : obs) : bool :=
  match o with call_listener _ _ _ => true | _ => false end.

Definition is_call_onDisconnect (o : obs) : bool :=
  match o with call_onDisconnect => true | _ => false end.

Definition is_call_onEvent (o : obs) : bool :=
  match o with call_onEvent _ => true | _ => false end.

Definition is_window_setTimeout (o : obs) : bool :=
  match o with window_setTimeout _ _ => true | _ => false end.

(** *** Vocabulary for the log and the registry *)

Definition is_new_EventSource (o : obs) : bool :=
  match o with new_EventSource _ => true | _ => false end.

Definition is_es_close (o : obs) : bool :=
  match o with es_close => true | _ => false end.

(** Sources created and sources closed, by count. *)
Definition opened (l : list obs) : nat :=
  length (filter (fun o => is_new_EventSource o) l).

Definition closed (l : list obs) : nat :=
  length (filter (fun o => is_es_close o) l).

(** The number of sources a channel holds. *)
Definition held (s : LiveGoStream) : nat :=
  match eventSource s with Some _ => 1 | None => 0 end.

(** The addresses of the sources created. *)
Definition opened_urls (l : list obs) : list string :=
  omap (fun o => match o with new_EventSource u => Some u | _ => None end) l.

(** What [handleMessage] can write: calls of the global handler and of
    listeners, and its [console.error]. *)
Definition is_dispatch_entry (o : obs) : bool :=
  match o with
  | call_onEvent _ | call_listener _ _ _ | console_error _ => true
  | _ => false
  end.

(** A call of the listener of identity [n] under the type [e]. *)
Definition is_call_of (e : string) (n : nat) (o : obs) : bool :=
  match o with
  | call_listener type m _ => String.eqb type e && Nat.eqb m n
  | _ => false
  end.

(** The identities registered for the type [e]. *)
Definition slot_ids (e : string) (s : LiveGoStream) : list nat :=
  map cb_id (default [] (listeners s !! e)).

(** [h] registers a listener of identity [n] for the type [e]. *)
Definition registers (e : string) (n : nat) (h : happening) : bool :=
  match h with
  | do_on e' cb => String.eqb e' e && Nat.eqb (cb_id cb) n
  | _ => false
  end.

(** The calls of the listeners [ls], in their order. *)
Definition calls_in_order (type : string) (d : any) (ls : list Listener) : list obs :=
  map (fun c => call_listener type (cb_id c) d) ls.

(** *** Stand-ins for scenarios *)

(** A listener that returns, and one that throws. *)
Definition quiet (n : nat) : Listener :=
  {| cb_id := n; cb_run := fun _ => None |}.

Definition raising (n : nat) : Listener :=
  {| cb_id := n; cb_run := fun _ => Some (Error "listener failed") |}.

(** A [JSON.parse] that accepts every payload, and one that rejects all. *)
Definition parse_all : string -> option any := fun _ => Some JNull.
Definition parse_none : string -> option any := fun _ => None.

Definition no_options : StreamOptions :=
  {| endpoint := None; onEvent := None; onError := None; onConnect := None;
     onDisconnect := None; reconnect := None; reconnectInterval := None |}.

(** Options with a disconnect callback that returns. *)
Definition with_onDisconnect : StreamOptions :=
  {| endpoint := None; onEvent := None; onError := None; onConnect := None;
     onDisconnect := Some {| cb_id := 9; cb_run := fun _ => None |};
     reconnect := None; reconnectInterval := None |}.

(** Options that switch the automatic reconnect off. *)
Definition without_reconnect : StreamOptions :=
  {| endpoint := None; onEvent := None; onError := None; onConnect := None;
     onDisconnect := None; reconnect := Some false; reconnectInterval := None |}.

(** Options with a global handler that throws. *)
Definition with_raising_onEvent : StreamOptions :=
  {| endpoint := None;
     onEvent := Some {| cb_id := 8; cb_run := fun _ => Some (Error "handler failed") |};
     onError := None; onConnect := None; onDisconnect := None;
     reconnect := None; reconnectInterval := None |}.

Definition frame : MessageEvent := {| ev_data := "{}"; lastEventId := "" |}.

(** A channel just constructed, with the default configuration. *)
Definition fresh (opts : StreamOptions) : World :=
  new_World (new_LiveGoStream "/api/livego" "c1" "s1" opts).

(** The world a run ends in (the start when the run is impossible). *)
Definition after (parse : string -> option any) (hs : list happening) (w : World)
  : World :=
  default w (run parse hs w).

End Stream.

(** ** The framework hooks: [useLiveGo] of [src/vue/index.ts] and of the
    React hook

    The two hooks differ in how the mirrored state is stored; [mount],
    [call], [set] and [batch] read the same in both. An operation is
    modelled from its start to the settling of the request it awaits. *)

Module Hook.

Import Component.

Inductive framework : Type := Vue | React.

(** The state the hook closes over: [livego.value] / [livegoRef.current],
    the mirrored values it returns, and whether [unsubscribe] is set. *)
Record Hook : Type := {
  livego : option LiveGoComponent;
  mirrored : any;
  last_effects : option Effects;
  isMounted : bool;
  isLoading : bool;
  last_error : option exn;
  subscribed : bool;
  log : list obs;
}.

Definition initial : Hook :=
  {| livego := None; mirrored := JObj []; last_effects := None;
     isMounted := false; isLoading := false; last_error := None;
     subscribed := false; log := [] |}.

Definition set_livego (v : option LiveGoComponent) (h : Hook) : Hook :=
  {| livego := v; mirrored := mirrored h; last_effects := last_effects h;
     isMounted := isMounted h; isLoading := isLoading h;
     last_error := last_error h; subscribed := subscribed h; log := log h |}.

Definition set_mirrored (v : any) (h : Hook) : Hook :=
  {| livego := livego h; mirrored := v; last_effects := last_effects h;
     isMounted := isMounted h; isLoading := isLoading h;
     last_error := last_error h; subscribed := subscribed h; log := log h |}.

Definition set_effects (v : option Effects) (h : Hook) : Hook :=
  {| livego := livego h; mirrored := mirrored h; last_effects := v;
     isMounted := isMounted h; isLoading := isLoading h;
     last_error := last_error h; subscribed := subscribed h; log := log h |}.

Definition set_isMounted (v : bool) (h : Hook) : Hook :=
  {| livego := livego h; mirrored := mirrored h; last_effects := last_effects h;
     isMounted := v; isLoading := isLoading h;
     last_error := last_error h; subscribed := subscribed h; log := log h |}.

Definition set_isLoading (v : bool) (h : Hook) : Hook :=
  {| livego := livego h; mirrored := mirrored h; last_effects := last_effects h;
     isMounted := isMounted h; isLoading := v;
     last_error := last_error h; subscribed := subscribed h; log := log h |}.

Definition set_error (v : option exn) (h : Hook) : Hook :=
  {| livego := livego h; mirrored := mirrored h; last_effects := last_effects h;
     isMounted := isMounted h; isLoading := isLoading h;
     last_error := v; subscribed := subscribed h; log := log h |}.

Definition set_subscribed (v : bool) (h : Hook) : Hook :=
  {| livego := livego h; mirrored := mirrored h; last_effects := last_effects h;
     isMounted := isMounted h; isLoading := isLoading h;
     last_error := last_error h; subscribed := v; log := log h |}.

Definition set_log (v : list obs) (h : Hook) : Hook :=
  {| livego := livego h; mirrored := mirrored h; last_effects := last_effects h;
     isMounted := isMounted h; isLoading := isLoading h;
     last_error := last_error h; subscribed := subscribed h; log := v |}.

(** [new Error('LiveGo component not mounted')] *)
Definition NotMountedError : exn := Error "LiveGo component not mounted".

(** The arrow function the hook passes to [instance.onUpdate]; the writes
    it makes to the hook's state are [mirror] below. *)
Definition hook_callback : UpdateCallback :=
  {| cb_id := 0; cb_run := fun _ => None |}.

(** [target[k] = v] on the fields of an object: the value of an existing
    key is overwritten in place, a new key is added last. *)
Fixpoint assign_key (k : string) (v : any) (fields : list (string * any))
  : list (string * any) :=
  match fields with
  | [] => [(k, v)]
  | (k', v') :: rest =>
      if String.eqb k k' then (k, v) :: rest else (k', v') :: assign_key k v rest
  end.

(** The own enumerable properties [Object.assign] copies from its source:
    the fields of an object, the elements of an array under their indices,
    the characters of a string under theirs; [null], booleans and numbers
    have none. *)
Definition own_entries (source : any) : list (string * any) :=
  match source with
  | JObj fields => fields
  | JArr items => imap (fun i x => (pretty i, x)) items
  | JStr str =>
      imap (fun i c => (pretty i, JStr (String c EmptyString))) (String.list_ascii_of_string str)
  | _ => []
  end.

(** [Object.assign(target, source)]; the hooks only ever assign onto the
    reactive object of the Vue hook, so the target is an object. The fields
    of the result are read by key ([get_field] below). *)
Definition Object_assign (target source : any) : any :=
  match target with
  | JObj t =>
      JObj (fold_left (fun acc kv => assign_key (fst kv) (snd kv) acc)
                      (own_entries source) t)
  | _ => target
  end.

(** A method of the engine called on the instance the hook holds. *)
Definition on_instance (inst : LiveGoComponent) (m : M World unit) : M Hook unit :=
  fun h =>
    let '(r, w) := m {| Component.this := inst; Component.log := log h |} in
    (r, set_log (Component.log w) (set_livego (Some (Component.this w)) h)).

(** What the hook's subscriber does when the engine notifies it. Vue
    deletes every key of the reactive object, which leaves it empty, and
    assigns the new state onto it; React stores the new state itself. *)
Definition mirror (fw : framework) (inst : LiveGoComponent)
    (settled : exn + UpdateResponse) : M Hook unit :=
  match settled with
  | inr response =>
      if existsb (same_cb hook_callback) (updateCallbacks inst)
      then modify (fun h =>
                     set_effects (Some (effects response))
                       (set_mirrored
                          match fw with
                          | Vue => Object_assign (JObj []) (state (snapshot response))
                          | React => state (snapshot response)
                          end h))
      else ret tt
  | inl _ => ret tt
  end.

(** [mount()] of the hook, with the settled [client.mount] request. *)
Definition mount (fw : framework) (componentName : string) (ps : any)
    (settled : exn + MountResponse) : M Hook unit :=
  h <- get ;;
  (if subscribed h
   then match livego h with
        | Some inst => on_instance inst (unsubscribe hook_callback)
        | None => ret tt
        end ;;; modify (set_subscribed false)
   else ret tt) ;;;
  modify (set_isLoading true) ;;;
  modify (set_error None) ;;;
  modify (set_isMounted false) ;;;
  try_finally
    (try_catch
       (instance <- (fun h =>
                       let '(r, l) := Component.mount componentName ps settled (log h) in
                       (r, set_log l h)) ;;
        modify (set_livego (Some instance)) ;;;
        modify (fun h =>
                  set_mirrored
                    match fw with
                    | Vue => Object_assign (mirrored h) (getState instance)
                    | React => getState instance
                    end h) ;;;
        modify (set_isMounted true) ;;;
        on_instance instance (onUpdate hook_callback) ;;;
        modify (set_subscribed true))
       (fun e => modify (set_error (Some e)) ;;; throw e))
    (set_isLoading false).

(** The body shared by [call], [set] and [batch]: the guard, then the
    engine's method inside [try]/[catch]. *)
Definition guarded (fw : framework) (start : M World unit)
    (settled : exn + UpdateResponse) : M Hook unit :=
  h <- get ;;
  match livego h with
  | None =>
      modify (set_error (Some NotMountedError)) ;;;
      throw NotMountedError
  | Some inst =>
      try_catch
        (modify (set_error None) ;;;
         on_instance inst (start ;;; sendUpdates_resume settled) ;;;
         mirror fw inst settled)
        (fun e => modify (set_error (Some e)) ;;; throw e)
  end.

Definition call (fw : framework) (m : string) (ps : list any)
    (settled : exn + UpdateResponse) : M Hook unit :=
  guarded fw (Component.call m ps) settled.

Definition set (fw : framework) (f : string) (v : any)
    (settled : exn + UpdateResponse) : M Hook unit :=
  guarded fw (Component.set f v) settled.

Definition batch (fw : framework) (ops : list Operation)
    (settled : exn + UpdateResponse) : M Hook unit :=
  guarded fw (Component.batch ops) settled.

(** The cleanup run when the host component unmounts. *)
Definition cleanup : M Hook unit :=
  h <- get ;;
  (if subscribed h
   then match livego h with
        | Some inst => on_instance inst (unsubscribe hook_callback)
        | None => ret tt
        end
   else ret tt) ;;;
  h <- get ;;
  match livego h with
  | Some inst => on_instance inst clearListeners
  | None => ret tt
  end.

(** The life of a hook: its operations, one after the other. *)
Inductive action : Type :=
| do_mount (settled : exn + MountResponse)
| do_call (m : string) (ps : list any) (settled : exn + UpdateResponse)
| do_set (f : string) (v : any) (settled : exn + UpdateResponse)
| do_batch (ops : list Operation) (settled : exn + UpdateResponse)
| do_cleanup.

Definition perform (fw : framework) (componentName : string) (ps : any)
    (a : action) : M Hook unit :=
  match a with
  | do_mount settled => mount fw componentName ps settled
  | do_call m args settled => call fw m args settled
  | do_set f v settled => set fw f v settled
  | do_batch ops settled => batch fw ops settled
  | do_cleanup => cleanup
  end.

Definition run (fw : framework) (componentName : string) (ps : any)
    (acts : list action) (h : Hook) : Hook :=
  fold_left (fun h a => snd (perform fw componentName ps a h)) acts h.

(** No mount of the run succeeded. *)
Definition mount_succeeds (a : action) : bool :=
  match a with do_mount (inr _) => true | _ => false end.

Definition never_mounted (acts : list action) : bool :=
  forallb (fun a => negb (mount_succeeds a)) acts.

(** The outcome of the most recent mount of a run: [false] when it
    failed or none was tried. *)
Definition mounted_last (acts : list action) : bool :=
  fold_left (fun b a => match a with
                        | do_mount (inr _) => true
                        | do_mount (inl _) => false
                        | _ => b
                        end) acts false.



(** The state a hook shows for the state [st] of a response: React shows
    [st] itself, Vue an object that was emptied and assigned [st]. *)
Definition shown (fw : framework) (st : any) : any :=
  match fw with
  | Vue => Object_assign (JObj []) st
  | React => st
  end.


(** What a rejected operation leaves in the hook [h]: the rejection
    recorded and rethrown, everything else as it was, one request sent. *)
Definition records_rejection (out : result unit * Hook) (e : exn) (h : Hook)
    (inst : LiveGoComponent) : Prop :=
  fst out = Raise e
  /\ last_error (snd out) = Some e
  /\ mirrored (snd out) = mirrored h
  /\ last_effects (snd out) = last_effects h
  /\ isMounted (snd out) = isMounted h
  /\ livego (snd out) = Some inst
  /\ exists us, log (snd out)
                = log h ++ [client_update {| req_snapshot := this_snapshot inst;
                                             req_updates := us |}].

End Hook.

(** ** The global configuration: [src/core/config.ts] *)

Module Config.

(** [RequestCredentials] of the Fetch API. *)
Inductive RequestCredentials : Type := cred_omit | cred_same_origin | cred_include.

(** The three module-level variables. *)
Record Config : Type := {
  globalEndpoint : string;
  globalCredentials : RequestCredentials;
  globalHeaders : gmap string string;
}.

(** Their initial values. *)
Definition initial : Config :=
  {| globalEndpoint := "/api/livego";
     globalCredentials := cred_include;
     globalHeaders := ∅ |}.

Definition configureEndpoint (e : string) (g : Config) : Config :=
  {| globalEndpoint := e; globalCredentials := globalCredentials g;
     globalHeaders := globalHeaders g |}.

Definition getEndpoint (g : Config) : string := globalEndpoint g.

Definition configureCredentials (c : RequestCredentials) (g : Config) : Config :=
  {| globalEndpoint := globalEndpoint g; globalCredentials := c;
     globalHeaders := globalHeaders g |}.

Definition getCredentials (g : Config) : RequestCredentials := globalCredentials g.

(** [globalHeaders = { ...headers }] and [return { ...globalHeaders }]: both
    copy, so the caller's object and the stored one are never shared. *)
Definition configureHeaders (h : gmap string string) (g : Config) : Config :=
  {| globalEndpoint := globalEndpoint g; globalCredentials := globalCredentials g;
     globalHeaders := h |}.

Definition getHeaders (g : Config) : gmap string string := globalHeaders g.

(** The argument of [configure], and of the constructors ([LiveGoOptions]). *)
Record Options : Type := {
  endpoint : option string;
  credentials : option RequestCredentials;
  headers : option (gmap string string);
}.

(** Truthiness of an optional string: absent and empty are falsy. *)
Definition truthy (s : option string) : option string :=
  match s with
  | Some v => if String.eqb v "" then None else Some v
  | None => None
  end.

(** [configure(options)]: three [if]s in a row; a credentials mode is a
    non-empty string and an object is truthy even when empty. *)
Definition configure (o : Options) (g : Config) : Config :=
  let g1 := match truthy (endpoint o) with
            | Some e => configureEndpoint e g
            | None => g
            end in
  let g2 := match credentials o with
            | Some c => configureCredentials c g1
            | None => g1
            end in
  match headers o with
  | Some h => configureHeaders h g2
  | None => g2
  end.

End Config.

(** ** The transport: class [LiveGoClient] *)

Module Client.

Import Config.

Record LiveGoClient : Type := {
  c_endpoint : string;
  c_credentials : RequestCredentials;
  c_headers : gmap string string;
}.

(** The client a component builds, in its constructor and in the static
    [mount]: [options.x || getX()] for each of the three settings. *)
Definition client_of (o : Options) (g : Config) : LiveGoClient :=
  {| c_endpoint := default (getEndpoint g) (truthy (endpoint o));
     c_credentials := default (getCredentials g) (credentials o);
     c_headers := default (getHeaders g) (headers o) |}.

(** The second argument of the private [fetch]. *)
Record RequestInit : Type := {
  ri_method : option string;
  ri_body : option string;
  ri_headers : option (gmap string string);
}.

(** What the global [fetch] is handed. *)
Record FetchInit : Type := {
  fi_method : option string;
  fi_body : option string;
  fi_credentials : RequestCredentials;
  fi_headers : gmap string string;
}.

(** The browser's [Response]; [json] is [None] where [response.json()]
    rejects. *)
Record Response : Type := {
  ok : bool;
  status : Z;
  statusText : string;
  json : option any;
}.

Inductive obs : Type :=
| global_fetch (url : string) (init : FetchInit).

(** The headers of a request: the defaults, then the client's, then the
    call's; later ones win. *)
Definition merged_headers (c : LiveGoClient) (o : RequestInit) : gmap string string :=
  default ∅ (ri_headers o) ∪ c_headers c ∪ {[ "Content-Type" := "application/json" ]}.

(** The private [fetch(path, options)] up to its call of the global
    [fetch]. *)
Definition fetch (c : LiveGoClient) (path : string) (o : RequestInit)
  : M (list obs) unit :=
  modify (fun l =>
    l ++ [global_fetch (c_endpoint c ++ path)%string
            {| fi_method := ri_method o; fi_body := ri_body o;
               fi_credentials := c_credentials c;
               fi_headers := merged_headers c o |}]).

(** [parseError(response)]: the body when it parses, else a synthesized
    payload. The result is what [mount] and [update] throw. *)
Definition parseError (r : Response) : exn :=
  match json r with
  | Some body => Thrown body
  | None =>
      ErrorPayload {| error := "HTTP_ERROR";
                      message := or_else (statusText r) "Unknown error";
                      code := status r;
                      details := None |}
  end.

(** The part [mount] and [update] share: one request, then the response
    (or the rejection of the global [fetch]) is turned into the outcome. *)
Definition post (c : LiveGoClient) (path body : string) (settled : exn + Response)
  : M (list obs) any :=
  fetch c path {| ri_method := Some "POST"; ri_body := Some body;
                  ri_headers := None |} ;;;
  match settled with
  | inl e => throw e
  | inr response =>
      if negb (ok response) then throw (parseError response)
      else match json response with
           | Some v => ret v
           | None => throw SyntaxError
           end
  end.

(** The request [post] makes: no headers of its own. *)
Definition request_of (c : LiveGoClient) (path body : string) : obs :=
  global_fetch (c_endpoint c ++ path)%string
    {| fi_method := Some "POST"; fi_body := Some body;
       fi_credentials := c_credentials c;
       fi_headers := c_headers c ∪ {[ "Content-Type" := "application/json" ]} |}.

Section Stringify.

(** [JSON.stringify], a builtin. *)
Variable JSON_stringify_mount : Component.MountRequest -> string.
Variable JSON_stringify_update : Component.UpdateRequest -> string.

(** [mount(request)] *)
Definition mount (c : LiveGoClient) (request : Component.MountRequest)
    (settled : exn + Response) : M (list obs) any :=
  post c "/mount" (JSON_stringify_mount request) settled.

(** [update(request)] *)
Definition update (c : LiveGoClient) (request : Component.UpdateRequest)
    (settled : exn + Response) : M (list obs) any :=
  post c "/update" (JSON_stringify_update request) settled.

End Stringify.

End Client.

(** * Properties of the sync engine *)

Section Engine.

Import Component.

Lemma forEach_notify (st : any) (eff : Effects) (cbs : list UpdateCallback)
    (c : LiveGoComponent) (l : list obs) :
  forEach cbs (fun callback =>
    try_catch (invoke callback st eff)
              (fun _ => emit (console_error "Error in LiveGo update callback:")))
    {| this := c; log := l |}
  = (Ok tt, {| this := c;
               log := l ++ notify_entries cbs st eff (this_snapshot c) |}).
Proof.
  revert l. induction cbs as [|cb cbs IH]; intros l; simpl.
  - unfold ret. by rewrite app_nil_r.
  - unfold bind at 1. unfold try_catch, invoke, bind, get, emit, modify, outcome.
    simpl. destruct (cb_run cb (st, eff)) as [e|]; simpl.
    + unfold throw; simpl. rewrite IH. simpl.
      by rewrite <- !app_assoc.
    + unfold ret; simpl. rewrite IH. simpl. by rewrite <- !app_assoc.
Qed.

(** [notifyUpdate] never throws, touches nothing but the log, and calls the
    subscribers in registration order. *)
Lemma notifyUpdate_eq (st : any) (eff : Effects) (w : World) :
  notifyUpdate st eff w
  = (Ok tt, {| this := this w;
               log := log w ++ notify_entries (updateCallbacks (this w)) st eff
                                              (this_snapshot (this w)) |}).
Proof.
  destruct w as [c l]. unfold notifyUpdate, bind, get. simpl.
  apply forEach_notify.
Qed.

Lemma notify_entries_invokes (cbs : list UpdateCallback) (st : any)
    (eff : Effects) (cur : ComponentSnapshot) :
  filter (fun o => is_invoke o) (notify_entries cbs st eff cur)
  = map (fun cb => Invoke (cb_id cb) st eff cur) cbs.
Proof.
  induction cbs as [|cb cbs IH]; [done|].
  simpl. destruct (cb_run cb (st, eff)); simpl; rewrite ?filter_cons; simpl;
    by rewrite IH.
Qed.

Lemma notify_entries_no_client (cbs : list UpdateCallback) (st : any)
    (eff : Effects) (cur : ComponentSnapshot) :
  filter (fun o => is_client_call o) (notify_entries cbs st eff cur) = [].
Proof.
  induction cbs as [|cb cbs IH]; [done|].
  simpl. destruct (cb_run cb (st, eff)); simpl; rewrite ?filter_cons; simpl;
    by rewrite IH.
Qed.

Lemma sendUpdates_resume_resolved (r : UpdateResponse) (w : World) :
  sendUpdates_resume (inr r) w
  = (Ok tt, {| this := {| this_snapshot := snapshot r;
                          updateCallbacks := updateCallbacks (this w) |};
               log := log w ++ notify_entries (updateCallbacks (this w))
                                (state (snapshot r)) (effects r) (snapshot r) |}).
Proof.
  unfold sendUpdates_resume, bind, set_snapshot, modify.
  by rewrite notifyUpdate_eq.
Qed.

Lemma sendUpdates_request_eq (updates : list Update) (w : World) :
  sendUpdates_request updates w
  = (Ok tt, {| this := this w;
               log := log w ++ [client_update {| req_snapshot := this_snapshot (this w);
                                                 req_updates := updates |}] |}).
Proof. reflexivity. Qed.

(** Only an adopted response changes the snapshot. *)
Lemma step_snapshot (a : action) (w : World) :
  this_snapshot (this (step a w))
  = match a with
    | resolved r => snapshot r
    | _ => this_snapshot (this w)
    end.
Proof.
  destruct a; try reflexivity.
  unfold step, perform. by rewrite sendUpdates_resume_resolved.
Qed.

Lemma run_snapshot (acts : list action) (w : World) :
  this_snapshot (this (run acts w))
  = match last_accepted acts None with
    | Some r => snapshot r
    | None => this_snapshot (this w)
    end.
Proof.
  assert (G : forall acc w,
             this_snapshot (this (run acts w))
             = match last_accepted acts None with
               | Some r => snapshot r
               | None => this_snapshot (this w)
               end
             /\ last_accepted acts acc
                = match last_accepted acts None with
                  | Some r => Some r
                  | None => acc
                  end).
  { induction acts as [|a acts IH]; intros acc w0; [done|].
    unfold run in *. simpl fold_left.
    destruct (IH acc (step a w0)) as [IH1 _]. rewrite IH1.
    rewrite step_snapshot.
    destruct (IH acc w0) as [_ IH3].
    destruct a as [m ps|f v|ops|r0|e|cb|cb|]; simpl; try done.
    destruct (IH (Some r0) w0) as [_ IH2].
    rewrite IH2. destruct (last_accepted acts None); done. }
  apply (G None w).
Qed.

(** C1. Along every run of the engine (operations started through [call],
    [set] or [batch], responses adopted, subscribers coming and going) the
    exposed state is the [state] field of the response adopted last, and the
    whole snapshot is that response's snapshot, not a merge. Adopting a
    response never throws, replaces the snapshot, leaves the subscribers as
    they were and calls each of them once, in registration order, with the
    new state and effects, while the new snapshot is already current. *)
Theorem sendUpdates_adopts_last_response :
  (forall (acts : list action) (w : World),
      getSnapshot (this (run acts w))
      = match last_accepted acts None with
        | Some r => snapshot r
        | None => getSnapshot (this w)
        end
      /\ getState (this (run acts w))
         = match last_accepted acts None with
           | Some r => state (snapshot r)
           | None => getState (this w)
           end)
  /\ (forall (r : UpdateResponse) (w : World),
        fst (perform (resolved r) w) = Ok tt
        /\ getSnapshot (this (step (resolved r) w)) = snapshot r
        /\ getState (this (step (resolved r) w)) = state (snapshot r)
        /\ updateCallbacks (this (step (resolved r) w)) = updateCallbacks (this w)
        /\ exists new,
             log (step (resolved r) w) = log w ++ new
             /\ filter (fun o => is_invoke o) new
                = map (fun cb => Invoke (cb_id cb) (state (snapshot r)) (effects r)
                                        (snapshot r))
                      (updateCallbacks (this w))
             /\ filter (fun o => is_client_call o) new = []).
Proof.
  split.
  - intros acts w. unfold getSnapshot, getState. rewrite run_snapshot.
    split; [done|]. by destruct (last_accepted acts None).
  - intros r w. unfold step, perform, getSnapshot, getState.
    rewrite sendUpdates_resume_resolved. simpl.
    repeat split.
    eexists. split; [done|]. split.
    + apply notify_entries_invokes.
    + apply notify_entries_no_client.
Qed.

(** C2. When [client.update] rejects, the operation that awaited it rejects
    with the same value, the engine is exactly as it was when the request
    left (same snapshot, same subscribers), and nothing is written after the
    request: no subscriber is called. This holds for [call], [set] and
    [batch] alike, and for a rejection that arrives at any later point. *)
Theorem sendUpdates_rejection_changes_nothing :
  forall (e : exn) (w : World),
    perform (rejected e) w = (Raise e, w)
    /\ (forall m ps, rejection_surfaced (call m ps) e w)
    /\ (forall f v, rejection_surfaced (set f v) e w)
    /\ (forall ops, rejection_surfaced (batch ops) e w).
Proof.
  intros e w.
  assert (G : forall us, rejection_surfaced (sendUpdates_request us) e w).
  { intros us. unfold rejection_surfaced, bind.
    rewrite sendUpdates_request_eq. simpl. repeat split.
    - eexists. reflexivity.
    - rewrite filter_app. simpl. rewrite filter_cons. simpl. by rewrite app_nil_r. }
  split; [done|]. repeat split; intros; apply G.
Qed.

(** C7. [batch(ops)] hands [client.update] exactly one request. Its updates
    are the operations in input order, one update per operation: a [call]
    becomes [callMethod] with the operation's method and its params (or
    none), a [set] becomes [syncInput] with the operation's field and value.
    Until the request has settled, whatever the outcome, the transport is
    contacted that one time. *)
Theorem batch_is_one_ordered_request :
  forall (ops : list Operation) (settled : exn + UpdateResponse) (w : World),
    fst (batch ops w) = Ok tt
    /\ this (snd (batch ops w)) = this w
    /\ (exists us,
          log (snd (batch ops w))
          = log w ++ [client_update {| req_snapshot := this_snapshot (this w);
                                       req_updates := us |}]
          /\ length us = length ops
          /\ map type us
             = map (fun op => match op_type op with
                              | op_call => callMethod
                              | op_set => syncInput
                              end) ops
          /\ forall i, us !! i = translated <$> ops !! i)
    /\ length (filter (fun o => is_client_call o)
                      (log (snd ((batch ops ;;; sendUpdates_resume settled) w))))
       = S (length (filter (fun o => is_client_call o) (log w))).
Proof.
  intros ops settled w. unfold batch, bind. rewrite sendUpdates_request_eq. simpl.
  repeat split.
  - exists (map to_update ops). split; [done|]. split; [|split].
    + apply length_map.
    + rewrite map_map. apply map_ext. intros op. unfold to_update.
      by destruct (op_type op).
    + intros i. rewrite list_lookup_fmap.
      destruct (ops !! i) as [op|]; [|done]. simpl. f_equal.
  - destruct settled as [e|r].
    + simpl. rewrite filter_app, length_app. simpl. lia.
    + rewrite sendUpdates_resume_resolved. simpl.
      rewrite !filter_app, !length_app, notify_entries_no_client. simpl. lia.
Qed.

End Engine.

(** * Properties of the hooks *)

Section Hooks.

Import Component Hook.

(** With no instance, the guard of [call], [set] and [batch] throws before
    anything else happens. *)
Lemma guarded_without_instance (fw : framework) (start : M World unit)
    (settled : exn + UpdateResponse) (h : Hook) :
  livego h = None ->
  guarded fw start settled h
  = (Raise NotMountedError, set_error (Some NotMountedError) h).
Proof.
  intros Hn. unfold guarded, bind, get. by rewrite Hn.
Qed.

(** A mount that fails leaves the hook without an instance; it contacts the
    transport once, for the mount itself. *)
Lemma mount_failure (fw : framework) (name : string) (ps : any) (e : exn)
    (h : Hook) :
  livego h = None ->
  livego (snd (mount fw name ps (inl e) h)) = None
  /\ Hook.log (snd (mount fw name ps (inl e) h))
     = Hook.log h ++ [client_mount {| component := name; props := ps |}].
Proof.
  intros Hn. unfold mount, bind, get, try_finally, try_catch, modify.
  simpl. rewrite Hn. destruct (subscribed h); simpl; by rewrite ?Hn.
Qed.

Lemma never_mounted_invariant (fw : framework) (name : string) (ps : any)
    (acts : list action) (h : Hook) :
  never_mounted acts = true ->
  livego h = None ->
  filter (fun o => is_client_update o) (Hook.log h) = [] ->
  livego (run fw name ps acts h) = None
  /\ filter (fun o => is_client_update o) (Hook.log (run fw name ps acts h)) = [].
Proof.
  revert h. induction acts as [|a acts IH]; intros h Hnm Hn Hl; [done|].
  unfold never_mounted in Hnm. simpl in Hnm.
  apply andb_prop in Hnm as [Ha Hrest].
  unfold run. simpl fold_left. apply IH; [exact Hrest| |].
  - destruct a as [[e|r]|m args st|f v st|ops st|]; simpl in *; try done.
    + by apply mount_failure.
    + unfold call. by rewrite guarded_without_instance.
    + unfold set. by rewrite guarded_without_instance.
    + unfold batch. by rewrite guarded_without_instance.
    + unfold cleanup, bind, get. rewrite Hn. destruct (subscribed h); simpl; by rewrite Hn.
  - destruct a as [[e|r]|m args st|f v st|ops st|]; simpl in *; try done.
    + destruct (mount_failure fw name ps e h Hn) as [_ ->].
      rewrite filter_app, Hl. done.
    + unfold call. by rewrite guarded_without_instance.
    + unfold set. by rewrite guarded_without_instance.
    + unfold batch. by rewrite guarded_without_instance.
    + unfold cleanup, bind, get. rewrite Hn. destruct (subscribed h); simpl; by rewrite Hn.
Qed.

(** C8. As long as no mount of the hook has succeeded (none was tried, or
    every one failed), in the Vue and in the React hook alike: [call], [set]
    and [batch] throw [Error('LiveGo component not mounted')], record that
    error, and leave the log of transport calls untouched, so no update
    request has ever been sent. *)
Theorem operations_before_mount_fail_without_transport :
  forall (fw : framework) (name : string) (ps : any) (acts : list action),
    never_mounted acts = true ->
    let h := run fw name ps acts initial in
    livego h = None
    /\ filter (fun o => is_client_update o) (Hook.log h) = []
    /\ (forall m args settled,
          call fw m args settled h
          = (Raise NotMountedError, set_error (Some NotMountedError) h))
    /\ (forall f v settled,
          set fw f v settled h
          = (Raise NotMountedError, set_error (Some NotMountedError) h))
    /\ (forall ops settled,
          batch fw ops settled h
          = (Raise NotMountedError, set_error (Some NotMountedError) h))
    /\ Hook.log (set_error (Some NotMountedError) h) = Hook.log h.
Proof.
  intros fw name ps acts Hnm h.
  destruct (never_mounted_invariant fw name ps acts initial Hnm eq_refl eq_refl)
    as [Hn Hl].
  fold h in Hn, Hl.
  repeat split; try done; intros; apply guarded_without_instance; exact Hn.
Qed.

(** A hook whose only mount failed, then asked to [call]. *)
Lemma operations_before_mount_fail_witness :
  let acts := [do_mount (inl (Error "network")); do_call "increment" [] (inl SyntaxError)] in
  never_mounted acts = true
  /\ livego (run Vue "Counter" JNull acts initial) = None.
Proof.
  split; [reflexivity|].
  apply (operations_before_mount_fail_without_transport Vue "Counter" JNull
           [do_mount (inl (Error "network"));
            do_call "increment" [] (inl SyntaxError)]).
  reflexivity.
Defined.

End Hooks.

(** * Properties of the push-event channel *)

Section Channel.

Import Stream.

Variable JSON_parse : string -> option any.

Lemma add_log_nil (w : World) : add_log [] w = w.
Proof. destruct w. unfold add_log. simpl. by rewrite app_nil_r. Qed.

Lemma add_log_app (a b : list obs) (w : World) :
  add_log b (add_log a w) = add_log (a ++ b) w.
Proof. unfold add_log. simpl. by rewrite app_assoc. Qed.

Lemma emit_eq (o : obs) (w : World) : emit o w = (Ok tt, add_log [o] w).
Proof. reflexivity. Qed.

Lemma forEach_delivered (type : string) (d : any) (ls : list Listener) (w : World) :
  forEach ls (fun callback =>
    emit (call_listener type (cb_id callback) d) ;;;
    outcome (cb_run callback d)) w
  = (match snd (delivered type d ls) with
     | None => Ok tt
     | Some e => Raise e
     end, add_log (fst (delivered type d ls)) w).
Proof.
  revert w. induction ls as [|cb ls IH]; intros w; simpl.
  - unfold ret. by rewrite add_log_nil.
  - unfold bind at 1. unfold bind at 1. rewrite emit_eq. unfold outcome.
    destruct (cb_run cb d) as [e|]; simpl; [done|].
    unfold ret. rewrite IH.
    destruct (delivered type d ls) as [l r]. simpl. by rewrite add_log_app.
Qed.

Lemma bind_get {A : Type} (k : World -> M World A) (w : World) :
  bind get k w = k w w.
Proof. reflexivity. Qed.

Lemma bind_emit {A : Type} (o : obs) (k : unit -> M World A) (w : World) :
  bind (emit o) k w = k tt (add_log [o] w).
Proof. reflexivity. Qed.

(** The loop over the listeners ends at the first one that throws: those
    registered after it are not called. *)
Lemma delivered_until_raise (type : string) (d : any) (before after : list Listener)
    (cb : Listener) (e : exn) :
  Forall (fun c => cb_run c d = None) before ->
  cb_run cb d = Some e ->
  delivered type d (before ++ cb :: after)
  = (map (fun c => call_listener type (cb_id c) d) (before ++ [cb]), Some e).
Proof.
  intros Hb Hcb. induction Hb as [|c before Hc Hb IH]; simpl.
  - by rewrite Hcb.
  - by rewrite Hc, IH.
Qed.

(** [handleMessage] never throws and touches nothing but the log. *)
Lemma handleMessage_eq (ev : MessageEvent) (eventType : option string) (w : World) :
  handleMessage JSON_parse ev eventType w
  = (Ok tt, add_log (handled JSON_parse (this w) ev eventType) w).
Proof.
  unfold handleMessage, handled, try_catch.
  unfold bind at 1.
  destruct (JSON_parse (ev_data ev)) as [d|]; simpl; [|done].
  rewrite bind_get. unfold bind at 1. unfold optional_call.
  destruct (onEvent (options (this w))) as [f|]; simpl.
  - rewrite bind_emit. unfold outcome at 1.
    destruct (cb_run f _) as [e|]; simpl.
    + by rewrite emit_eq, add_log_app.
    + rewrite bind_get. simpl.
      destruct (listeners (this w) !! or_string eventType "message") as [ls|]; simpl.
      * rewrite forEach_delivered.
        destruct (delivered _ d ls) as [l [e|]]; simpl.
        -- by rewrite emit_eq, !add_log_app.
        -- by rewrite add_log_app, app_nil_r.
      * done.
  - rewrite bind_get. simpl.
    destruct (listeners (this w) !! or_string eventType "message") as [ls|]; simpl.
    + rewrite forEach_delivered.
      destruct (delivered _ d ls) as [l [e|]]; simpl.
      * by rewrite emit_eq, add_log_app.
      * by rewrite app_nil_r.
    + by rewrite add_log_nil.
Qed.

Ltac unfold_channel :=
  unfold step, perform, fire, expire, reconnect_timer, onopen, onerror,
    onmessage, named_listener, connect, disconnect, setupEventListeners,
    on, unsubscribe, off, optional_call, setTimeout, clearTimeout,
    set_eventSource, set_reconnectTimeout, set_listeners,
    set_reconnectAttempts, with_this, emit, when, outcome, bind, get,
    modify, ret, throw in *.

Ltac crunch :=
  unfold_channel; simpl;
  repeat (first [ rewrite handleMessage_eq in * | case_match ]; simplify_eq/=);
  try done.

Lemma connect_eq (w : World) :
  connect w
  = (Ok tt,
     match eventSource (this w) with
     | Some _ => w
     | None =>
         {| this := upd_eventSource
                      (Some {| url := stream_url (this w); es_types := eventTypes |})
                      (this w);
            timers := timers w; next_timer := next_timer w;
            log := log w ++ [new_EventSource (stream_url (this w))] |}
     end).
Proof. crunch. Qed.

Lemma step_es_ok (h : happening) (w : World) :
  es_ok w -> es_ok (step JSON_parse h w).
Proof.
  unfold es_ok. intros Hok.
  destruct h as [| |e cb|e cb|e cb|type ev|t]; crunch; intros; simplify_eq/=; eauto.
Qed.

(** An event of the current source reaches exactly one handler. *)
Lemma fire_eq (type : string) (ev : MessageEvent) (w : World) :
  es_ok w ->
  is_Some (eventSource (this w)) ->
  fire JSON_parse type ev w
  = if String.eqb type "open" then onopen w
    else if String.eqb type "error" then onerror w
    else if String.eqb type "message" then handleMessage JSON_parse ev None w
    else if existsb (String.eqb type) eventTypes
         then handleMessage JSON_parse ev (Some type) w
         else (Ok tt, w).
Proof.
  intros Hok [es Hes]. unfold fire. rewrite bind_get, Hes.
  rewrite (Hok es Hes).
  destruct (String.eqb_spec type "open") as [->|Ho].
  { simpl. unfold bind at 1. by destruct (onopen w) as [[[]|e] w']. }
  destruct (String.eqb_spec type "error") as [->|He].
  { simpl. unfold bind at 1. simpl. unfold bind at 1.
    by destruct (onerror w) as [[[]|e] w']. }
  destruct (String.eqb_spec type "message") as [->|Hm].
  { simpl. unfold onmessage. unfold bind. simpl. by rewrite handleMessage_eq. }
  unfold when at 1 2 3. unfold bind at 1 2 3. simpl ret.
  unfold when, named_listener.
  destruct (existsb (String.eqb type) eventTypes); unfold ret; simpl;
    by rewrite ?handleMessage_eq.
Qed.

(** [disconnect], whether or not the disconnect callback throws. *)
Lemma disconnect_fields (w : World) :
  eventSource (this (snd (disconnect w))) = None
  /\ reconnectTimeout (this (snd (disconnect w))) = None
  /\ timers (snd (disconnect w)) = disconnect_timers w
  /\ next_timer (snd (disconnect w)) = next_timer w
  /\ reconnectAttempts (this (snd (disconnect w))) = reconnectAttempts (this w)
  /\ filter (fun o => is_window_setTimeout o) (log (snd (disconnect w)))
     = filter (fun o => is_window_setTimeout o) (log w).
Proof.
  unfold disconnect_timers. crunch; repeat split; try done;
    rewrite ?filter_app; simpl; by rewrite ?app_nil_r.
Qed.

(** [disconnect] when the disconnect callback returns. *)
Lemma disconnect_eq (w : World) :
  returns (onDisconnect (options (this w))) ->
  disconnect w
  = (Ok tt,
     {| this := upd_listeners ∅
                  (upd_eventSource None (upd_reconnectTimeout None (this w)));
        timers := disconnect_timers w;
        next_timer := next_timer w;
        log := log w ++ disconnect_entries (this w) |}).
Proof.
  intros Hq. unfold disconnect_timers, disconnect_entries.
  destruct w as [s ts nt l]. destruct s. simpl in *.
  crunch; rewrite ?app_nil_r, <- ?app_assoc; try done.
  all: by match goal with H : cb_run ?c ?a = Some _ |- _ =>
            rewrite (Hq c a eq_refl) in H end.
Qed.

Lemma onopen_fields (w : World) :
  reconnectAttempts (this (snd (onopen w))) = 0
  /\ eventSource (this (snd (onopen w))) = eventSource (this w)
  /\ listeners (this (snd (onopen w))) = listeners (this w)
  /\ timers (snd (onopen w)) = timers w.
Proof. crunch. Qed.

(** [onerror] while retries remain: the counter is incremented and one
    timer is scheduled, with the delay computed from the new counter. *)
Lemma onerror_retry (w : World) :
  returns (onError (options (this w))) ->
  will_retry (this w) = true ->
  onerror w
  = (Ok tt,
     {| this := upd_reconnectTimeout (Some (next_timer w))
                  (upd_reconnectAttempts (reconnectAttempts (this w) + 1) (this w));
        timers := timers w
                  ++ [(next_timer w,
                       (default 0 (reconnectInterval (options (this w)))
                        * 2 ^ (Z.of_nat (reconnectAttempts (this w) + 1) - 1))%Z)];
        next_timer := Pos.succ (next_timer w);
        log := log w ++ error_entries (this w)
               ++ [window_setTimeout (next_timer w)
                     (default 0 (reconnectInterval (options (this w)))
                      * 2 ^ (Z.of_nat (reconnectAttempts (this w) + 1) - 1))%Z] |}).
Proof.
  intros Hq Hr. unfold will_retry in Hr. unfold error_entries.
  destruct w as [s ts nt l]. destruct s. simpl in *.
  unfold onerror, optional_call, bind, get, emit, modify, outcome, ret, throw. simpl.
  destruct (onError options0) as [cb|] eqn:Hcb; simpl.
  - rewrite (Hq cb _ eq_refl). simpl. rewrite Hr. simpl.
    by rewrite <- !app_assoc.
  - rewrite Hr. simpl. by rewrite <- !app_assoc.
Qed.

(** [onerror] once no retry is left (or reconnection is off): it ends in
    [disconnect]. *)
Lemma onerror_exhausted (w : World) :
  returns (onError (options (this w))) ->
  will_retry (this w) = false ->
  onerror w = disconnect (add_log (error_entries (this w)) w).
Proof.
  intros Hq Hr. unfold will_retry in Hr. unfold error_entries.
  destruct w as [s ts nt l]. destruct s. simpl in *.
  unfold onerror, optional_call, bind at 1 2 3 4, get, emit, modify, outcome, ret, throw. simpl.
  destruct (onError options0) as [cb|] eqn:Hcb; simpl.
  - rewrite (Hq cb _ eq_refl). simpl. unfold bind at 1. simpl. rewrite Hr.
    unfold add_log. simpl. by rewrite <- !app_assoc.
  - unfold bind at 1. simpl. by rewrite Hr.
Qed.

Lemma step_attempts (h : happening) (w : World) :
  es_ok w ->
  returns (onError (options (this w))) ->
  possible h w = true ->
  reconnectAttempts (this (step JSON_parse h w))
  = match h with
    | fires type _ =>
        if String.eqb type "open" then 0
        else if String.eqb type "error"
             then if will_retry (this w)
                  then reconnectAttempts (this w) + 1
                  else reconnectAttempts (this w)
             else reconnectAttempts (this w)
    | _ => reconnectAttempts (this w)
    end.
Proof.
  intros Hok Hq Hp.
  destruct h as [| |e cb|e cb|e cb|type ev|t].
  1-5, 7: solve [clear Hq Hok; crunch].
  unfold step, perform. simpl in Hp. apply bool_decide_eq_true in Hp.
  rewrite fire_eq by done.
  destruct (String.eqb type "open"); [apply onopen_fields|].
  destruct (String.eqb type "error").
  { destruct (will_retry (this w)) eqn:Hr.
    - by rewrite onerror_retry.
    - rewrite onerror_exhausted by done.
      by destruct (disconnect_fields (add_log (error_entries (this w)) w))
        as (_ & _ & _ & _ & -> & _). }
  rewrite !handleMessage_eq. by repeat case_match.
Qed.

(** No happening changes the configuration the channel was built with. *)
Lemma step_config (h : happening) (w : World) :
  options (this (step JSON_parse h w)) = options (this w)
  /\ maxReconnectAttempts (this (step JSON_parse h w))
     = maxReconnectAttempts (this w).
Proof.
  destruct h as [| |e cb|e cb|e cb|type ev|t]; crunch.
Qed.

(** Along every run the retry counter is the number of [error] events
    since the last [open], capped at the maximum. *)
Lemma run_attempts (hs : list happening) :
  forall (w w' : World) (acc : nat),
    run JSON_parse hs w = Some w' ->
    es_ok w ->
    returns (onError (options (this w))) ->
    default false (reconnect (options (this w))) = true ->
    maxReconnectAttempts (this w) = 5 ->
    reconnectAttempts (this w) = Nat.min acc 5 ->
    reconnectAttempts (this w') = Nat.min (consecutive_errors hs acc) 5
    /\ options (this w') = options (this w)
    /\ maxReconnectAttempts (this w') = 5
    /\ es_ok w'.
Proof.
  induction hs as [|h hs IH]; intros w w' acc Hrun Hok Hq Hre Hmax Hatt.
  - simpl in Hrun. by simplify_eq.
  - simpl in Hrun. destruct (possible h w) eqn:Hp; [|done].
    destruct (step_config h w) as [Hopt Hm].
    pose proof (step_attempts h w Hok Hq Hp) as Hs.
    pose proof (step_es_ok h w Hok) as Hok'.
    assert (Hnext : exists acc',
               consecutive_errors (h :: hs) acc = consecutive_errors hs acc'
               /\ reconnectAttempts (this (step JSON_parse h w)) = Nat.min acc' 5).
    { destruct h as [| |e cb|e cb|e cb|type ev|t].
      1-5, 7: by (exists acc; split; [reflexivity | rewrite Hs; exact Hatt]).
      rewrite Hs. cbn [consecutive_errors].
      destruct (String.eqb type "open"); [by exists 0|].
      destruct (String.eqb type "error"); [|by exists acc].
      exists (S acc). split; [done|].
      unfold will_retry. rewrite Hre, Hmax, Hatt. simpl.
      destruct (Nat.ltb_spec (Nat.min acc 5) 5); lia. }
    destruct Hnext as (acc' & -> & Hatt').
    destruct (IH (step JSON_parse h w) w' acc' Hrun Hok') as (H1 & H2 & H3 & H4).
    + by rewrite Hopt.
    + by rewrite Hopt.
    + by rewrite Hm.
    + exact Hatt'.
    + repeat split; try done. by rewrite H2.
Qed.

Lemma error_entries_no_timer (s : LiveGoStream) :
  filter (fun o => is_window_setTimeout o) (error_entries s) = [].
Proof. unfold error_entries. by destruct (onError (options s)). Qed.

(** When every pending timer is the recorded one, [disconnect] leaves no
    timer pending. *)
Lemma no_stale_timers (w : World) :
  (forall p, p ∈ timers w -> reconnectTimeout (this w) = Some (fst p)) ->
  disconnect_timers w = [].
Proof.
  intros H. unfold disconnect_timers.
  destruct (reconnectTimeout (this w)) as [t|] eqn:Ht.
  - unfold without_timer. induction (timers w) as [|p ts IH]; [done|].
    rewrite filter_cons.
    assert (fst p = t) as ->.
    { specialize (H p). rewrite elem_of_cons in H.
      specialize (H (or_introl eq_refl)). by simplify_eq. }
    rewrite Pos.eqb_refl. simpl. apply IH.
    intros q Hq0. apply H. by right.
  - destruct (timers w) as [|p ts]; [done|].
    specialize (H p). rewrite elem_of_cons in H.
    by specialize (H (or_introl eq_refl)).
Qed.

(** X27. Take any run of a channel built with reconnection enabled (the
    default) and an error callback that returns, and let [n] be the number
    of [error] events since the last [open]. When the source fires the next
    error, the [n+1]-th in a row: if [n < 5], one reconnect timer is
    scheduled with delay [reconnectInterval * 2^n] (so [base], [2*base],
    [4*base], [8*base], [16*base] for the first to the fifth), the counter
    becomes [n+1] and the source is kept; from the sixth on, no timer is
    scheduled, the recorded timer is cancelled and the source is closed and
    dropped; every other timer that was pending stays pending. If no older
    timer was still pending, nothing is pending then and the browser has
    nothing left to deliver: only a call of a method of the channel, such as
    [connect()], can change its state. *)
Theorem reconnect_backoff :
  forall (getEndpoint cid sig : string) (opts : StreamOptions)
         (hs : list happening) (w : World) (ev : MessageEvent),
    run JSON_parse hs (new_World (new_LiveGoStream getEndpoint cid sig opts)) = Some w ->
    reconnect opts <> Some false ->
    returns (onError opts) ->
    is_Some (eventSource (this w)) ->
    let n := consecutive_errors hs 0 in
    let base := default 1000%Z (reconnectInterval opts) in
    let w' := step JSON_parse (fires "error" ev) w in
    (n < 5 ->
       timers w' = timers w ++ [(next_timer w, (base * 2 ^ Z.of_nat n)%Z)]
       /\ reconnectTimeout (this w') = Some (next_timer w)
       /\ eventSource (this w') = eventSource (this w)
       /\ reconnectAttempts (this w') = S n
       /\ filter (fun o => is_window_setTimeout o) (log w')
          = filter (fun o => is_window_setTimeout o) (log w)
            ++ [window_setTimeout (next_timer w) (base * 2 ^ Z.of_nat n)%Z])
    /\ (5 <= n ->
          eventSource (this w') = None
          /\ reconnectTimeout (this w') = None
          /\ filter (fun o => is_window_setTimeout o) (log w')
             = filter (fun o => is_window_setTimeout o) (log w)
          /\ timers w' = disconnect_timers w
          /\ ((forall p, p ∈ timers w -> reconnectTimeout (this w) = Some (fst p)) ->
              timers w' = []
              /\ forall h, possible h w' = true -> is_method h = true)).
Proof.
  intros g cid sig opts hs w ev Hrun Hre Hq Hes n base w'.
  destruct (run_attempts hs _ w 0 Hrun) as (Hatt & Hopt & Hmax & Hok).
  { by intros es Hes'. }
  { exact Hq. }
  { simpl. by destruct (reconnect opts) as [[]|]. }
  { reflexivity. }
  { reflexivity. }
  fold n in Hatt. simpl in Hopt.
  assert (Hw' : w' = snd (onerror w)).
  { unfold w', step, perform. by rewrite fire_eq. }
  assert (Hq' : returns (onError (options (this w)))) by by rewrite Hopt.
  assert (Hr : will_retry (this w) = Nat.ltb n 5).
  { unfold will_retry. rewrite Hopt, Hmax, Hatt. simpl.
    destruct (reconnect opts) as [[]|]; simpl; try done;
      destruct (Nat.ltb_spec n 5), (Nat.ltb_spec (Nat.min n 5) 5); lia. }
  assert (Hbase : default 0%Z (reconnectInterval (options (this w))) = base).
  { by rewrite Hopt. }
  split.
  - intros Hn. apply Nat.ltb_lt in Hn as Hn'. rewrite Hn' in Hr.
    rewrite Hw', onerror_retry by done. simpl.
    rewrite Hbase, Hatt.
    replace (Z.of_nat (Nat.min n 5 + 1) - 1)%Z with (Z.of_nat n) by lia.
    repeat split; try done.
    + lia.
    + rewrite filter_app. f_equal. by destruct (onError (options (this w))).
  - intros Hn. assert (Hn' : Nat.ltb n 5 = false) by by apply Nat.ltb_ge.
    rewrite Hn' in Hr. rewrite Hw', onerror_exhausted by done.
    destruct (disconnect_fields (add_log (error_entries (this w)) w))
      as (H1 & H2 & H3 & _ & _ & H6).
    rewrite H1, H2, H3, H6. simpl. rewrite filter_app, error_entries_no_timer, app_nil_r.
    repeat split; try done.
    + by apply no_stale_timers.
    + intros h Hp. destruct h as [| |e cb|e cb|e cb|type ev'|t]; try done; simpl in Hp.
      * rewrite H1 in Hp. apply bool_decide_eq_true in Hp. by destruct Hp.
      * rewrite H3 in Hp. unfold add_log; simpl.
        replace (disconnect_timers (add_log (error_entries (this w)) w))
          with (disconnect_timers w) in Hp by done.
        by rewrite no_stale_timers in Hp.
Qed.

(** A dispatch of a dispatched type writes entries of that type only. *)
Lemma handled_typed (s : LiveGoStream) (ev : MessageEvent) (eventType : option string) :
  or_string eventType "message" ∈ dispatched_types ->
  Forall dispatch_typed (handled JSON_parse s ev eventType).
Proof.
  intros Hty. unfold handled.
  destruct (JSON_parse (ev_data ev)) as [d|]; [|by repeat constructor].
  simpl.
  assert (Hl : forall ls, Forall dispatch_typed
                 (fst (delivered (or_string eventType "message") d ls))).
  { induction ls as [|cb ls IH]; simpl; [constructor|].
    destruct (cb_run cb d); simpl; [constructor; [exact Hty|constructor]|].
    destruct (delivered _ d ls) as [l r]. simpl in *. by constructor. }
  assert (Ht : Forall dispatch_typed
                 match listeners s !! or_string eventType "message" with
                 | Some ls =>
                     fst (delivered (or_string eventType "message") d ls)
                     ++ match snd (delivered (or_string eventType "message") d ls) with
                        | Some _ => [parse_failure]
                        | None => []
                        end
                 | None => []
                 end).
  { destruct (listeners s !! _) as [ls|]; [|constructor].
    apply Forall_app. split; [apply Hl|].
    destruct (snd _); by repeat constructor. }
  destruct (onEvent (options s)) as [f|]; [|exact Ht].
  constructor; [exact Hty|].
  destruct (cb_run f _); [by repeat constructor|exact Ht].
Qed.

(** With no listener registered, a dispatch calls no listener. *)
Lemma handled_without_listeners (s : LiveGoStream) (ev : MessageEvent)
    (eventType : option string) :
  listeners s = ∅ ->
  filter (fun o => is_call_listener o) (handled JSON_parse s ev eventType) = [].
Proof.
  intros Hl. unfold handled.
  destruct (JSON_parse (ev_data ev)) as [d|]; [|done].
  simpl. rewrite Hl, lookup_empty.
  destruct (onEvent (options s)) as [f|]; [|done].
  by destruct (cb_run f _).
Qed.

Lemma eventTypes_dispatched (type : string) :
  existsb (String.eqb type) eventTypes = true -> type ∈ dispatched_types.
Proof.
  intros H. apply existsb_exists in H as (t & Hin & Heq).
  apply String.eqb_eq in Heq as ->.
  unfold dispatched_types. right. by apply list_elem_of_In.
Qed.

Lemma eventTypes_nonempty (type : string) :
  existsb (String.eqb type) eventTypes = true ->
  or_string (Some type) "message" = type.
Proof.
  intros H. apply existsb_exists in H as (t & Hin & Heq).
  apply String.eqb_eq in Heq as ->.
  simpl in Hin. by destruct Hin as [<-|[<-|[<-|[<-|[<-|[<-|[]]]]]]].
Qed.

(** Every happening extends the log, and what it adds about dispatches
    names a dispatched type. *)
Lemma step_dispatch_typed (h : happening) (w : World) :
  es_ok w ->
  exists new, log (step JSON_parse h w) = log w ++ new /\ Forall dispatch_typed new.
Proof.
  intros Hok.
  assert (Hfin : forall w' : World,
             (exists new, log w' = log w ++ new
                          /\ Forall (fun o => is_call_listener o = false
                                              /\ is_call_onEvent o = false) new) ->
             exists new, log w' = log w ++ new /\ Forall dispatch_typed new).
  { intros w' (new & -> & HF). exists new. split; [done|].
    eapply Forall_impl; [exact HF|]. intros [] [? ?]; done. }
  destruct h as [| |e cb|e cb|e cb|type ev|t].
  1-5, 7: apply Hfin; clear Hfin Hok; crunch;
    rewrite <- ?app_assoc;
    first [ by (eexists; split; [reflexivity|]; repeat constructor)
          | by (exists []; split; [by rewrite app_nil_r|constructor]) ].
  unfold step, perform.
  destruct (eventSource (this w)) as [es|] eqn:Hes.
  2: { exists []. unfold fire. rewrite bind_get, Hes. simpl. by rewrite app_nil_r. }
  rewrite fire_eq by done.
  destruct (String.eqb type "open").
  { apply Hfin; clear Hfin Hok; crunch; rewrite <- ?app_assoc;
    first [ by (eexists; split; [reflexivity|]; repeat constructor)
          | by (exists []; split; [by rewrite app_nil_r|constructor]) ]. }
  destruct (String.eqb type "error").
  { apply Hfin; clear Hfin Hok; crunch; rewrite <- ?app_assoc;
    first [ by (eexists; split; [reflexivity|]; repeat constructor)
          | by (exists []; split; [by rewrite app_nil_r|constructor]) ]. }
  destruct (String.eqb type "message").
  { rewrite handleMessage_eq. eexists. split; [reflexivity|].
    apply handled_typed. by left. }
  destruct (existsb (String.eqb type) eventTypes) eqn:Hex.
  - rewrite handleMessage_eq. eexists. split; [reflexivity|].
    apply handled_typed. rewrite eventTypes_nonempty by done.
    by apply eventTypes_dispatched.
  - exists []. by rewrite app_nil_r.
Qed.

Lemma run_dispatch_typed (hs : list happening) :
  forall (w w' : World),
    run JSON_parse hs w = Some w' ->
    es_ok w ->
    Forall dispatch_typed (log w) ->
    es_ok w' /\ Forall dispatch_typed (log w').
Proof.
  induction hs as [|h hs IH]; intros w w' Hrun Hok Hlog.
  - simpl in Hrun. by simplify_eq.
  - simpl in Hrun. destruct (possible h w); [|done].
    apply (IH _ _ Hrun); [by apply step_es_ok|].
    destruct (step_dispatch_typed h w Hok) as (new & -> & Hnew).
    by apply Forall_app.
Qed.

(** C9. Along every run of a channel, whatever frames arrive and whatever
    is registered through [on]: a listener is only ever called, and the
    global handler only ever receives an event, under one of the types
    [message], [connected], [text-chunk], [progress], [notification],
    [generation-complete], [upload-complete]; under any other type no
    listener is ever called; and an event of the source named otherwise
    (other than [open] and [error]) leaves the channel and its log
    untouched. A frame without a name is handled as type [message], a frame
    named by one of the six types as that type. *)
Theorem only_hardcoded_types_are_dispatched :
  forall (getEndpoint cid sig : string) (opts : StreamOptions)
         (hs : list happening) (w : World),
    run JSON_parse hs (new_World (new_LiveGoStream getEndpoint cid sig opts)) = Some w ->
    Forall dispatch_typed (log w)
    /\ (forall type cb d,
          type ∉ dispatched_types -> call_listener type cb d ∉ log w)
    /\ (forall type ev,
          type ∉ dispatched_types -> type <> "open" -> type <> "error" ->
          fire JSON_parse type ev w = (Ok tt, w))
    /\ (forall ev,
          is_Some (eventSource (this w)) ->
          fire JSON_parse "message" ev w
          = (Ok tt, add_log (handled JSON_parse (this w) ev None) w))
    /\ (forall type ev,
          is_Some (eventSource (this w)) ->
          type ∈ eventTypes ->
          fire JSON_parse type ev w
          = (Ok tt, add_log (handled JSON_parse (this w) ev (Some type)) w)).
Proof.
  intros g cid sig opts hs w Hrun.
  destruct (run_dispatch_typed hs _ w Hrun) as [Hok Hlog].
  { by intros es Hes. }
  { constructor. }
  split; [exact Hlog|]. split; [|split; [|split]].
  3: { intros ev Hes. rewrite fire_eq by done. simpl. apply handleMessage_eq. }
  3: { intros type ev Hes Hty. rewrite fire_eq by done.
       unfold eventTypes in Hty.
       repeat (apply elem_of_cons in Hty as [->|Hty]; [apply handleMessage_eq|]).
       by apply elem_of_nil in Hty. }
  - intros type cb d Hty Hin.
    rewrite Forall_forall in Hlog. apply Hty. exact (Hlog _ Hin).
  - intros type ev Hty Ho He.
    destruct (eventSource (this w)) as [es|] eqn:Hes.
    2: { unfold fire. by rewrite bind_get, Hes. }
    rewrite fire_eq by done.
    destruct (String.eqb_spec type "open"); [done|].
    destruct (String.eqb_spec type "error"); [done|].
    destruct (String.eqb_spec type "message") as [->|].
    { exfalso. apply Hty. by left. }
    destruct (existsb (String.eqb type) eventTypes) eqn:Hex; [|done].
    exfalso. apply Hty. by apply eventTypes_dispatched.
Qed.

Lemma step_without_listeners (h : happening) (w : World) :
  es_ok w ->
  listeners (this w) = ∅ ->
  is_registration h = false ->
  listeners (this (step JSON_parse h w)) = ∅
  /\ filter (fun o => is_call_listener o) (log (step JSON_parse h w))
     = filter (fun o => is_call_listener o) (log w).
Proof.
  intros Hok Hl Hreg.
  destruct h as [| |e cb|e cb|e cb|type ev|t]; try done.
  1-4, 6: clear Hok; crunch; rewrite ?filter_app, ?app_nil_r; simpl;
    rewrite ?app_nil_r; try done;
    simpl in *; rewrite ?Hl in *; rewrite ?lookup_empty in *;
    rewrite ?delete_empty; done.
  unfold step, perform.
  destruct (eventSource (this w)) as [es|] eqn:Hes.
  2: { unfold fire. by rewrite bind_get, Hes. }
  rewrite fire_eq by done.
  destruct (String.eqb type "open").
  { clear Hok; crunch; rewrite ?filter_app, ?app_nil_r; simpl;
      by rewrite ?app_nil_r. }
  destruct (String.eqb type "error").
  { clear Hok; crunch; rewrite ?filter_app, ?app_nil_r; simpl;
      by rewrite ?app_nil_r. }
  rewrite !handleMessage_eq.
  repeat case_match; simpl; try done;
    by rewrite filter_app, handled_without_listeners, app_nil_r.
Qed.

(** Until somebody registers again, an empty registry stays empty and no
    listener is called. *)
Lemma run_without_listeners (hs : list happening) :
  forall (w w' : World),
    run JSON_parse hs w = Some w' ->
    es_ok w ->
    listeners (this w) = ∅ ->
    no_registration hs = true ->
    listeners (this w') = ∅
    /\ filter (fun o => is_call_listener o) (log w')
       = filter (fun o => is_call_listener o) (log w).
Proof.
  induction hs as [|h hs IH]; intros w w' Hrun Hok Hl Hno.
  - simpl in Hrun. by simplify_eq.
  - simpl in Hrun. destruct (possible h w); [|done].
    unfold no_registration in Hno. simpl in Hno.
    apply andb_prop in Hno as [Hh Hno]. apply negb_true_iff in Hh.
    destruct (step_without_listeners h w Hok Hl Hh) as [Hl' Hlog].
    destruct (IH _ _ Hrun (step_es_ok h w Hok) Hl' Hno) as [H1 H2].
    split; [done|]. by rewrite H2.
Qed.

Lemma step_timeout_has_source (h : happening) (w : World) :
  timeout_has_source w -> timeout_has_source (step JSON_parse h w).
Proof.
  unfold timeout_has_source. intros Hinv.
  destruct h as [| |e cb|e cb|e cb|type ev|t]; crunch;
    intros; simplify_eq/=; eauto;
    try (by match goal with H : is_Some None |- _ => destruct H end);
    try (by match goal with H : is_Some ?x, H0 : ?x = None |- _ =>
              rewrite H0 in H; destruct H end);
    try (by apply Hinv);
    try (by match goal with Hi : ?P -> is_Some None, Hp : ?P |- _ =>
              destruct (Hi Hp) end).
Qed.

Lemma run_invariants (hs : list happening) :
  forall (w w' : World),
    run JSON_parse hs w = Some w' ->
    es_ok w ->
    timeout_has_source w ->
    es_ok w' /\ timeout_has_source w' /\ options (this w') = options (this w).
Proof.
  induction hs as [|h hs IH]; intros w w' Hrun Hok Hinv.
  - simpl in Hrun. by simplify_eq.
  - simpl in Hrun. destruct (possible h w); [|done].
    destruct (IH _ _ Hrun (step_es_ok h w Hok) (step_timeout_has_source h w Hinv))
      as (H1 & H2 & H3).
    repeat split; try done. rewrite H3. apply step_config.
Qed.

(** C6. A frame whose payload [JSON.parse] rejects: [handleMessage] returns
    normally, and all it does is write its [console.error]. The channel
    object is untouched (the retry counter in particular), no timer is
    scheduled or cancelled, and neither the error callback, nor the global
    handler, nor any listener is called. The same holds for the event as the
    source delivers it, whatever its name (other than [open] and [error],
    which carry no payload): it is dropped. *)
Theorem malformed_frame_is_dropped :
  forall (ev : MessageEvent) (w : World),
    JSON_parse (ev_data ev) = None ->
    (forall eventType,
        handleMessage JSON_parse ev eventType w = (Ok tt, add_log [parse_failure] w))
    /\ (forall type,
          type <> "open" -> type <> "error" ->
          fst (fire JSON_parse type ev w) = Ok tt
          /\ this (snd (fire JSON_parse type ev w)) = this w
          /\ reconnectAttempts (this (snd (fire JSON_parse type ev w)))
             = reconnectAttempts (this w)
          /\ timers (snd (fire JSON_parse type ev w)) = timers w
          /\ exists new,
               log (snd (fire JSON_parse type ev w)) = log w ++ new
               /\ Forall (fun o => o = parse_failure) new).
Proof.
  intros ev w Hbad.
  assert (Hh : forall et w0,
             handleMessage JSON_parse ev et w0 = (Ok tt, add_log [parse_failure] w0)).
  { intros et w0. rewrite handleMessage_eq. unfold handled. by rewrite Hbad. }
  split; [intros; apply Hh|].
  intros type Ho He. unfold fire. rewrite bind_get.
  destruct (eventSource (this w)) as [es|].
  2: { simpl. repeat split. exists []. by rewrite app_nil_r. }
  apply String.eqb_neq in Ho, He. rewrite Ho, He.
  unfold when at 1 2. unfold bind at 1 2. simpl ret.
  unfold onmessage, named_listener, when, bind.
  destruct (String.eqb type "message"), (existsb (String.eqb type) (es_types es));
    rewrite ?Hh; simpl; rewrite ?Hh; simpl; repeat split.
  - exists [parse_failure; parse_failure]. split; [by rewrite <- app_assoc|].
    by repeat constructor.
  - exists [parse_failure]. split; [done|]. by repeat constructor.
  - exists [parse_failure]. split; [done|]. by repeat constructor.
  - exists []. by rewrite app_nil_r.
Qed.

(** [disconnect(); connect()] when the disconnect callback returns. *)
Lemma reconnect_timer_eq (w : World) :
  returns (onDisconnect (options (this w))) ->
  reconnect_timer w = (Ok tt, reopened w).
Proof.
  intros Hq. unfold reconnect_timer, bind. rewrite disconnect_eq by done.
  rewrite connect_eq. simpl. unfold reopened. by rewrite <- app_assoc.
Qed.

Lemma reopened_es_ok (w : World) : es_ok (reopened w).
Proof. intros es Hes. simpl in Hes. by simplify_eq. Qed.

Lemma disconnect_entries_no_listener (s : LiveGoStream) :
  filter (fun o => is_call_listener o) (disconnect_entries s) = [].
Proof.
  unfold disconnect_entries.
  by destruct (reconnectTimeout s), (eventSource s), (onDisconnect (options s)).
Qed.

Lemma reopened_listener_calls (w : World) :
  filter (fun o => is_call_listener o) (log (reopened w))
  = filter (fun o => is_call_listener o) (log w).
Proof.
  simpl. rewrite !filter_app, disconnect_entries_no_listener. simpl.
  by rewrite app_nil_r.
Qed.

(** C5, as the code has it. From every state of the channel in which the
    disconnect callback (if any) returns, [disconnect()] followed by
    [connect()] returns normally and leaves a newly created source that
    listens for the six event types, an empty registry, no recorded timer
    (the recorded one is cancelled) and the retry counter as it was: the
    counter is not reset by the two calls, it becomes 0 when the new source
    fires [open]. The disconnect callback is called once if there was a
    source and a callback is configured, and not at all otherwise, before the
    new source is created. Until somebody calls [on] again, no listener is
    called, whatever the new source delivers. *)
Theorem disconnect_then_connect :
  forall (w : World),
    returns (onDisconnect (options (this w))) ->
    let out := (disconnect ;;; connect) w in
    fst out = Ok tt
    /\ eventSource (this (snd out))
       = Some {| url := stream_url (this w); es_types := eventTypes |}
    /\ listeners (this (snd out)) = ∅
    /\ reconnectTimeout (this (snd out)) = None
    /\ timers (snd out) = disconnect_timers w
    /\ reconnectAttempts (this (snd out)) = reconnectAttempts (this w)
    /\ (forall ev,
          reconnectAttempts (this (step JSON_parse (fires "open" ev) (snd out))) = 0)
    /\ log (snd out)
       = log w ++ disconnect_entries (this w) ++ [new_EventSource (stream_url (this w))]
    /\ filter (fun o => is_call_onDisconnect o) (disconnect_entries (this w))
       = match eventSource (this w), onDisconnect (options (this w)) with
         | Some _, Some _ => [call_onDisconnect]
         | _, _ => []
         end
    /\ (forall hs w',
          no_registration hs = true ->
          run JSON_parse hs (snd out) = Some w' ->
          listeners (this w') = ∅
          /\ filter (fun o => is_call_listener o) (log w')
             = filter (fun o => is_call_listener o) (log w)).
Proof.
  intros w Hq out.
  assert (Hout : out = (Ok tt, reopened w)) by by apply reconnect_timer_eq.
  rewrite Hout. simpl. split_and!; try done.
  - intros ev. unfold step, perform. rewrite fire_eq.
    + apply onopen_fields.
    + apply reopened_es_ok.
    + by eexists.
  - unfold disconnect_entries.
    by destruct (reconnectTimeout (this w)), (eventSource (this w)),
         (onDisconnect (options (this w))).
  - intros hs w' Hno Hrun.
    destruct (run_without_listeners hs _ _ Hrun (reopened_es_ok w) eq_refl Hno)
      as [Hl ->].
    split; [exact Hl|]. apply reopened_listener_calls.
Qed.

(** X28. Take any run of a channel whose disconnect callback (if any)
    returns, and let a pending reconnect timer expire. Its callback runs
    [disconnect()] and then [connect()]: the log shows the old source closed
    and the disconnect callback called before the new source is created.
    Afterwards the registry is empty and a new source is in place, so until
    somebody calls [on] again no listener is called, whatever the new source
    delivers. The disconnect callback, when configured, is called exactly
    once provided the old source was still there, which is the case whenever
    the timer that expired is the one the channel has recorded; a timer that
    expires on a channel without a source calls nothing. *)
Theorem automatic_reconnect_clears_listeners :
  forall (getEndpoint cid sig : string) (opts : StreamOptions)
         (hs : list happening) (w : World) (t : positive),
    run JSON_parse hs (new_World (new_LiveGoStream getEndpoint cid sig opts)) = Some w ->
    possible (expires t) w = true ->
    returns (onDisconnect opts) ->
    let out := expire t w in
    fst out = Ok tt
    /\ log (snd out)
       = log w ++ disconnect_entries (this w) ++ [new_EventSource (stream_url (this w))]
    /\ listeners (this (snd out)) = ∅
    /\ eventSource (this (snd out))
       = Some {| url := stream_url (this w); es_types := eventTypes |}
    /\ reconnectTimeout (this (snd out)) = None
    /\ (reconnectTimeout (this w) = Some t -> is_Some (eventSource (this w)))
    /\ (is_Some (eventSource (this w)) ->
        filter (fun o => is_call_onDisconnect o) (disconnect_entries (this w))
        = match onDisconnect opts with
          | Some _ => [call_onDisconnect]
          | None => []
          end)
    /\ (forall hs' w',
          no_registration hs' = true ->
          run JSON_parse hs' (snd out) = Some w' ->
          listeners (this w') = ∅
          /\ filter (fun o => is_call_listener o) (log w')
             = filter (fun o => is_call_listener o) (log w)).
Proof.
  intros g cid sig opts hs w t Hrun Hp Hq out.
  destruct (run_invariants hs _ w Hrun) as (Hok & Hinv & Hopt).
  { by intros es Hes. }
  { intros [x Hx]. done. }
  simpl in Hopt.
  set (w1 := {| this := this w; timers := without_timer t (timers w);
                next_timer := next_timer w; log := log w |}).
  assert (Hout : out = (Ok tt, reopened w1)).
  { unfold out, expire. fold w1. apply reconnect_timer_eq. simpl. by rewrite Hopt. }
  rewrite Hout. simpl. split_and!; try done.
  - intros Ht. apply Hinv. by eexists.
  - intros [es Hes]. unfold disconnect_entries. rewrite Hes, Hopt. simpl.
    by destruct (reconnectTimeout (this w)), (onDisconnect opts).
  - intros hs' w' Hno Hrun'.
    destruct (run_without_listeners hs' _ _ Hrun' (reopened_es_ok w1) eq_refl Hno)
      as [Hl ->].
    split; [exact Hl|]. apply (reopened_listener_calls w1).
Qed.

End Channel.

(** * Scenarios *)

Section Scenarios.

Import Stream.

(** Five failed connections, each followed by its reconnect; the delays are
    1000, 2000, 4000, 8000 and 16000 ms, and the sixth failure is final. *)
Lemma reconnect_backoff_witness :
  let hs := [do_connect;
             fires "error" frame; expires 1; fires "error" frame; expires 2;
             fires "error" frame; expires 3; fires "error" frame; expires 4;
             fires "error" frame; expires 5] in
  let w := after parse_all hs (fresh no_options) in
  run parse_all hs (fresh no_options) = Some w
  /\ consecutive_errors hs 0 = 5
  /\ filter (fun o => is_window_setTimeout o) (log w)
     = [window_setTimeout 1 1000; window_setTimeout 2 2000;
        window_setTimeout 3 4000; window_setTimeout 4 8000;
        window_setTimeout 5 16000]
  /\ eventSource (this (step parse_all (fires "error" frame) w)) = None
  /\ timers (step parse_all (fires "error" frame) w) = [].
Proof.
  intros hs w.
  assert (Hrun : run parse_all hs (fresh no_options) = Some w)
    by (vm_compute; reflexivity).
  assert (Hre : reconnect no_options <> Some false) by discriminate.
  assert (Hq : returns (onError no_options)) by (intros cb arg Hcb; discriminate Hcb).
  assert (Hes : is_Some (eventSource (this w))) by (vm_compute; eexists; reflexivity).
  destruct (reconnect_backoff parse_all "/api/livego" "c1" "s1" no_options hs w frame
              Hrun Hre Hq Hes) as [_ Hsixth].
  destruct (Hsixth (le_n 5)) as (Hsrc & _ & _ & _ & Hquiet).
  split; [exact Hrun|]. split; [reflexivity|]. split; [vm_compute; reflexivity|].
  split; [exact Hsrc|].
  apply Hquiet. vm_compute. intros p Hp. inversion Hp.
Defined.

(** A frame that does not parse, delivered to a channel with a listener. *)
Lemma malformed_frame_witness :
  let w := after parse_none [do_on "progress" (quiet 1); do_connect] (fresh no_options) in
  parse_none (ev_data frame) = None
  /\ handleMessage parse_none frame (Some "progress") w
     = (Ok tt, add_log [parse_failure] w).
Proof.
  intros w. split; [reflexivity|].
  apply (malformed_frame_is_dropped parse_none frame w). reflexivity.
Defined.

(** A listener for a type outside the list is never called, one for
    [progress] is. *)
Lemma only_hardcoded_types_witness :
  let hs := [do_on "custom" (quiet 1); do_on "progress" (quiet 2); do_connect;
             fires "custom" frame; fires "progress" frame] in
  let w := after parse_all hs (fresh no_options) in
  run parse_all hs (fresh no_options) = Some w
  /\ ~ (call_listener "custom" 1 JNull ∈ log w)
  /\ filter (fun o => is_call_listener o) (log w) = [call_listener "progress" 2 JNull].
Proof.
  intros hs w.
  assert (Hrun : run parse_all hs (fresh no_options) = Some w)
    by (vm_compute; reflexivity).
  split; [exact Hrun|]. split; [|vm_compute; reflexivity].
  apply (only_hardcoded_types_are_dispatched parse_all "/api/livego" "c1" "s1"
           no_options hs w Hrun).
  intros H. unfold dispatched_types, eventTypes in H.
  repeat (apply elem_of_cons in H as [H|H]; [discriminate H|]).
  by apply elem_of_nil in H.
Defined.

(** The first reconnect timer expires on a channel with one listener. *)
Lemma automatic_reconnect_witness :
  let hs := [do_on "progress" (quiet 1); do_connect; fires "error" frame] in
  let w := after parse_all hs (fresh with_onDisconnect) in
  run parse_all hs (fresh with_onDisconnect) = Some w
  /\ possible (expires 1) w = true
  /\ listeners (this w) !! "progress" = Some [quiet 1]
  /\ listeners (this (snd (expire 1 w))) = ∅.
Proof.
  intros hs w.
  assert (Hrun : run parse_all hs (fresh with_onDisconnect) = Some w)
    by (vm_compute; reflexivity).
  assert (Hp : possible (expires 1) w = true) by (vm_compute; reflexivity).
  assert (Hq : returns (onDisconnect with_onDisconnect)).
  { intros cb arg Hcb. injection Hcb as <-. reflexivity. }
  split; [exact Hrun|]. split; [exact Hp|]. split; [vm_compute; reflexivity|].
  apply (automatic_reconnect_clears_listeners parse_all "/api/livego" "c1" "s1"
           with_onDisconnect hs w 1%positive Hrun Hp Hq).
Defined.

(** [disconnect(); connect()] after one failed connection. *)
Lemma disconnect_then_connect_witness :
  let w := after parse_all [do_on "progress" (quiet 1); do_connect; fires "error" frame]
                 (fresh with_onDisconnect) in
  returns (onDisconnect (options (this w)))
  /\ listeners (this (snd ((disconnect ;;; connect) w))) = ∅
  /\ reconnectAttempts (this (snd ((disconnect ;;; connect) w)))
     = reconnectAttempts (this w).
Proof.
  intros w.
  assert (Hq : returns (onDisconnect (options (this w)))).
  { intros cb arg Hcb. vm_compute in Hcb. injection Hcb as <-. reflexivity. }
  split; [exact Hq|].
  destruct (disconnect_then_connect parse_all w Hq)
    as (_ & _ & Hl & _ & _ & Hatt & _).
  split; [exact Hl | exact Hatt].
Defined.

(** C5, the claim as stated fails: after one failed connection the retry
    counter is 1, and [disconnect()] followed by [connect()] leaves it at 1
    on the newly created source; the next failure is scheduled with the
    doubled delay. *)
Lemma disconnect_connect_keeps_retry_counter :
  let w := after parse_all [do_connect; fires "error" frame] (fresh no_options) in
  let w' := snd ((disconnect ;;; connect) w) in
  run parse_all [do_connect; fires "error" frame] (fresh no_options) = Some w
  /\ is_Some (eventSource (this w'))
  /\ reconnectAttempts (this w') = 1
  /\ reconnectAttempts (this w') <> 0
  /\ timers (step parse_all (fires "error" frame) w') = [(2%positive, 2000%Z)].
Proof.
  intros w w'. split; [vm_compute; reflexivity|].
  split; [vm_compute; eexists; reflexivity|].
  split; [vm_compute; reflexivity|].
  split; [vm_compute; discriminate|].
  vm_compute; reflexivity.
Qed.

(** C3, where the code departs from the claim. A source fails six times in
    a row before the first reconnect timer expires. The first five errors
    schedule reconnects after 1000, 2000, 4000, 8000 and 16000 ms; each one
    overwrites the recorded timer without cancelling it. The sixth error
    schedules nothing, and its [disconnect()] cancels the recorded timer, the
    fifth, and drops the source: the first four timers are still pending.
    When the first of them expires, with no call of [connect()] by anybody,
    its callback reopens the channel. *)
Theorem sixth_error_leaves_earlier_timers_pending :
  let hs := [do_connect;
             fires "error" frame; fires "error" frame; fires "error" frame;
             fires "error" frame; fires "error" frame; fires "error" frame] in
  let w := after parse_all hs (fresh no_options) in
  let w' := step parse_all (expires 1) w in
  run parse_all hs (fresh no_options) = Some w
  /\ consecutive_errors hs 0 = 6
  /\ filter (fun o => is_window_setTimeout o) (log w)
     = [window_setTimeout 1 1000; window_setTimeout 2 2000;
        window_setTimeout 3 4000; window_setTimeout 4 8000;
        window_setTimeout 5 16000]
  /\ eventSource (this w) = None
  /\ reconnectTimeout (this w) = None
  /\ timers w = [(1%positive, 1000%Z); (2%positive, 2000%Z);
                 (3%positive, 4000%Z); (4%positive, 8000%Z)]
  /\ possible (expires 1) w = true
  /\ is_method (expires 1) = false
  /\ eventSource (this w')
     = Some {| url := "/api/livego/livego/stream?component_id=c1&signature=s1";
               es_types := eventTypes |}
  /\ opened (log w) = 1
  /\ opened (log w') = 2.
Proof.
  intros hs w w'.
  split_and!; vm_compute; reflexivity.
Qed.

(** C10, where the code departs from the claim. A source fails twice before
    the first reconnect timer expires, so the second timer is the recorded
    one, and then [disconnect()] is called: it cancels the second timer,
    closes the source and calls the disconnect callback. The first timer is
    still pending. When it expires, its [disconnect()] finds no source and
    calls nothing, and its [connect()] reopens the channel: an automatic
    reconnect during which the disconnect callback is not called. *)
Theorem stale_timer_reconnects_without_disconnect_callback :
  let hs := [do_on "progress" (quiet 1); do_connect;
             fires "error" frame; fires "error" frame; do_disconnect] in
  let w := after parse_all hs (fresh with_onDisconnect) in
  let out := expire 1 w in
  run parse_all hs (fresh with_onDisconnect) = Some w
  /\ eventSource (this w) = None
  /\ reconnectTimeout (this w) = None
  /\ timers w = [(1%positive, 1000%Z)]
  /\ filter (fun o => is_call_onDisconnect o) (log w) = [call_onDisconnect]
  /\ possible (expires 1) w = true
  /\ fst out = Ok tt
  /\ log (snd out)
     = log w ++ [new_EventSource "/api/livego/livego/stream?component_id=c1&signature=s1"]
  /\ eventSource (this (snd out))
     = Some {| url := "/api/livego/livego/stream?component_id=c1&signature=s1";
               es_types := eventTypes |}
  /\ filter (fun o => is_call_onDisconnect o) (log (snd out))
     = filter (fun o => is_call_onDisconnect o) (log w)
  /\ listeners (this (snd out)) = ∅.
Proof.
  intros hs w out.
  split_and!; vm_compute; reflexivity.
Qed.

(** C4, where the code departs from the claim. Two listeners are registered
    for [progress], the first throws. One [progress] frame arrives: the
    first listener is called, the exception is caught by the [try] around
    the whole of [handleMessage] and reported as a parse failure, and the
    second listener is never called. The engine, given the same pair of
    subscribers, calls both. *)
Theorem raising_listener_silences_later_listeners :
  let hs := [do_on "progress" (raising 1); do_on "progress" (quiet 2); do_connect;
             fires "progress" frame] in
  let w := after parse_all hs (fresh no_options) in
  let engine := {| Component.this :=
                     {| Component.this_snapshot := Component.a_snapshot 0;
                        Component.updateCallbacks :=
                          [Component.raising_cb 1; Component.quiet_cb 2] |};
                   Component.log := [] |} in
  let response := {| Component.snapshot := Component.a_snapshot 1;
                     Component.effects := Component.no_effects |} in
  run parse_all hs (fresh no_options) = Some w
  /\ listeners (this w) !! "progress" = Some [raising 1; quiet 2]
  /\ log w = [new_EventSource "/api/livego/livego/stream?component_id=c1&signature=s1";
              call_listener "progress" 1 JNull;
              parse_failure]
  /\ ~ (call_listener "progress" 2 JNull ∈ log w)
  /\ filter (fun o => Component.is_invoke o)
            (Component.log (Component.step (Component.resolved response) engine))
     = [Component.Invoke 1 (Component.state (Component.a_snapshot 1))
                         Component.no_effects (Component.a_snapshot 1);
        Component.Invoke 2 (Component.state (Component.a_snapshot 1))
                         Component.no_effects (Component.a_snapshot 1)].
Proof.
  intros hs w engine response.
  split; [vm_compute; reflexivity|].
  split; [vm_compute; reflexivity|].
  assert (Hlog : log w = [new_EventSource "/api/livego/livego/stream?component_id=c1&signature=s1";
              call_listener "progress" 1 JNull;
              parse_failure]) by (vm_compute; reflexivity).
  split; [exact Hlog|].
  split.
  { rewrite Hlog. intros H.
    repeat (apply elem_of_cons in H as [H|H]; [discriminate H|]).
    by apply elem_of_nil in H. }
  vm_compute; reflexivity.
Qed.

End Scenarios.

(** * More on the sync engine *)

Section EngineSubscribers.

Import Component.

Lemma same_cb_spec {A : Type} (c d : Callback A) :
  same_cb c d = true <-> cb_id c = cb_id d.
Proof. unfold same_cb. apply Nat.eqb_eq. Qed.

Lemma existsb_same_cb {A : Type} (c : Callback A) (s : list (Callback A)) :
  existsb (same_cb c) s = true <-> cb_id c ∈ map cb_id s.
Proof.
  rewrite existsb_exists. split.
  - intros (d & Hin & Hd). apply same_cb_spec in Hd. rewrite Hd.
    apply list_elem_of_fmap. exists d. split; [done|]. by apply list_elem_of_In.
  - intros Hin. apply list_elem_of_fmap in Hin as (d & Hd & Hin).
    exists d. split; [by apply list_elem_of_In|]. by apply same_cb_spec.
Qed.

Lemma set_add_ids {A : Type} (c : Callback A) (s : list (Callback A)) :
  map cb_id (set_add c s)
  = if existsb (same_cb c) s then map cb_id s else map cb_id s ++ [cb_id c].
Proof. unfold set_add. destruct (existsb _ s); [done|]. by rewrite map_app. Qed.

Lemma set_delete_ids {A : Type} (c : Callback A) (s : list (Callback A)) :
  map cb_id (set_delete c s) = filter (fun n => n <> cb_id c) (map cb_id s).
Proof.
  unfold set_delete. induction s as [|d s IH]; [done|].
  simpl. rewrite !filter_cons.
  destruct (same_cb c d) eqn:E; simpl.
  - apply same_cb_spec in E. rewrite decide_False by (intros H; by apply H).
    exact IH.
  - assert (cb_id d <> cb_id c).
    { intros H. symmetry in H. apply same_cb_spec in H. congruence. }
    rewrite decide_True by done. simpl. by rewrite IH.
Qed.

Lemma set_add_NoDup {A : Type} (c : Callback A) (s : list (Callback A)) :
  NoDup (map cb_id s) -> NoDup (map cb_id (set_add c s)).
Proof.
  intros Hnd. rewrite set_add_ids.
  destruct (existsb (same_cb c) s) eqn:Hex; [done|].
  apply NoDup_app. split; [done|]. split; [|apply NoDup_singleton].
  intros n Hn Hc. apply list_elem_of_singleton in Hc as ->.
  apply existsb_same_cb in Hn. congruence.
Qed.

Lemma set_delete_NoDup {A : Type} (c : Callback A) (s : list (Callback A)) :
  NoDup (map cb_id s) -> NoDup (map cb_id (set_delete c s)).
Proof. intros Hnd. rewrite set_delete_ids. by apply NoDup_filter. Qed.

(** What a step does to the subscribers. *)
Lemma step_updateCallbacks (a : action) (w : World) :
  updateCallbacks (this (step a w))
  = match a with
    | do_onUpdate cb => set_add cb (updateCallbacks (this w))
    | do_unsubscribe cb => set_delete cb (updateCallbacks (this w))
    | do_clearListeners => []
    | _ => updateCallbacks (this w)
    end.
Proof.
  destruct a; try reflexivity.
  unfold step, perform. by rewrite sendUpdates_resume_resolved.
Qed.

(** What a step writes. *)
Lemma step_log (a : action) (w : World) :
  log (step a w)
  = log w ++ match a with
             | do_call m ps =>
                 [client_update
                    {| req_snapshot := this_snapshot (this w);
                       req_updates :=
                         [ {| type := callMethod;
                              payload := {| method := Some m; params := Some ps;
                                            field := None; value := None |} |} ] |}]
             | do_set f v =>
                 [client_update
                    {| req_snapshot := this_snapshot (this w);
                       req_updates :=
                         [ {| type := syncInput;
                              payload := {| method := None; params := None;
                                            field := Some f; value := Some v |} |} ] |}]
             | do_batch ops =>
                 [client_update {| req_snapshot := this_snapshot (this w);
                                   req_updates := map to_update ops |}]
             | resolved r =>
                 notify_entries (updateCallbacks (this w)) (state (snapshot r))
                                (effects r) (snapshot r)
             | _ => []
             end.
Proof.
  destruct a; try reflexivity; try (simpl; by rewrite app_nil_r).
  unfold step, perform. by rewrite sendUpdates_resume_resolved.
Qed.

Lemma run_app (acts acts' : list action) (w : World) :
  run (acts ++ acts') w = run acts' (run acts w).
Proof. unfold run. apply fold_left_app. Qed.

Lemma run_cons (a : action) (acts : list action) (w : World) :
  run (a :: acts) w = run acts (step a w).
Proof. reflexivity. Qed.

Lemma notify_entries_invoked_ids (cbs : list UpdateCallback) (st : any)
    (eff : Effects) (cur : ComponentSnapshot) :
  invoked_ids (notify_entries cbs st eff cur) = map cb_id cbs.
Proof.
  induction cbs as [|cb cbs IH]; [done|].
  unfold invoked_ids in *. simpl.
  destruct (cb_run cb (st, eff)); simpl; by f_equal.
Qed.

(** X1. No subscriber is registered twice: along every run that starts
    with distinct subscribers the subscribers stay distinct, whatever is
    passed to [onUpdate], so a response calls each of them exactly once. *)
Theorem subscribers_stay_distinct :
  forall (acts : list action) (w : World),
    NoDup (subscriber_ids (this w)) ->
    NoDup (subscriber_ids (this (run acts w)))
    /\ forall r,
         invoked_ids (notify_entries (updateCallbacks (this (run acts w)))
                        (state (snapshot r)) (effects r) (snapshot r))
         = subscriber_ids (this (run acts w))
         /\ log (step (resolved r) (run acts w))
            = log (run acts w)
              ++ notify_entries (updateCallbacks (this (run acts w)))
                   (state (snapshot r)) (effects r) (snapshot r).
Proof.
  intros acts w Hnd. split.
  - revert w Hnd. induction acts as [|a acts IH]; intros w Hnd; [done|].
    rewrite run_cons. apply IH. unfold subscriber_ids in *.
    rewrite step_updateCallbacks.
    destruct a; try done.
    + by apply set_add_NoDup.
    + by apply set_delete_NoDup.
    + constructor.
  - intros r. split; [apply notify_entries_invoked_ids|].
    by rewrite step_log.
Qed.

Lemma subscribers_stay_distinct_witness :
  NoDup (subscriber_ids {| this_snapshot := a_snapshot 0; updateCallbacks := [] |})
  /\ NoDup (subscriber_ids
       (this (run [do_onUpdate (quiet_cb 1); do_onUpdate (raising_cb 2);
                   do_onUpdate (quiet_cb 1)]
                  {| this := {| this_snapshot := a_snapshot 0; updateCallbacks := [] |};
                     log := [] |})))
  /\ subscriber_ids
       (this (run [do_onUpdate (quiet_cb 1); do_onUpdate (raising_cb 2);
                   do_onUpdate (quiet_cb 1)]
                  {| this := {| this_snapshot := a_snapshot 0; updateCallbacks := [] |};
                     log := [] |}))
     = [1; 2].
Proof.
  split; [constructor|]. split; [|reflexivity].
  apply (subscribers_stay_distinct
           [do_onUpdate (quiet_cb 1); do_onUpdate (raising_cb 2);
            do_onUpdate (quiet_cb 1)]
           {| this := {| this_snapshot := a_snapshot 0; updateCallbacks := [] |};
              log := [] |}).
  constructor.
Defined.

Lemma notify_entries_not_invoked (n : nat) (cbs : list UpdateCallback) (st : any)
    (eff : Effects) (cur : ComponentSnapshot) :
  n ∉ map cb_id cbs ->
  filter (fun o => is_invoke_of n o) (notify_entries cbs st eff cur) = [].
Proof.
  induction cbs as [|cb cbs IH]; intros Hn; [done|].
  simpl in Hn. apply not_elem_of_cons in Hn as [Hne Hn].
  simpl. rewrite filter_cons. simpl.
  destruct (Nat.eqb_spec (cb_id cb) n) as [Heq|_]; [by symmetry in Heq|].
  simpl. destruct (cb_run cb (st, eff)); simpl; rewrite ?filter_cons; simpl;
    by apply IH.
Qed.

(** A step that does not register [n] keeps [n] unsubscribed and uncalled. *)
Lemma step_not_subscribed (n : nat) (a : action) (w : World) :
  n ∉ subscriber_ids (this w) ->
  registers n a = false ->
  (n ∉ subscriber_ids (this (step a w)))
  /\ filter (fun o => is_invoke_of n o) (log (step a w))
     = filter (fun o => is_invoke_of n o) (log w).
Proof.
  unfold subscriber_ids. intros Hn Hreg.
  rewrite step_updateCallbacks, step_log, filter_app. split.
  - destruct a as [m ps|f v|ops|r|e|cb|cb|]; try done.
    + simpl in Hreg. rewrite set_add_ids.
      destruct (existsb (same_cb cb) _); [done|].
      rewrite elem_of_app. intros [H|H]; [done|].
      apply list_elem_of_singleton in H. apply Nat.eqb_neq in Hreg. congruence.
    + rewrite set_delete_ids. intros H. apply list_elem_of_filter in H as [_ H]. done.
    + simpl. by apply not_elem_of_nil.
  - destruct a as [m ps|f v|ops|r|e|cb|cb|]; simpl; rewrite ?app_nil_r; try done.
    by rewrite notify_entries_not_invoked, app_nil_r.
Qed.

Lemma run_not_subscribed (n : nat) (acts : list action) :
  forall (w : World),
    n ∉ subscriber_ids (this w) ->
    forallb (fun a => negb (registers n a)) acts = true ->
    (n ∉ subscriber_ids (this (run acts w)))
    /\ filter (fun o => is_invoke_of n o) (log (run acts w))
       = filter (fun o => is_invoke_of n o) (log w).
Proof.
  induction acts as [|a acts IH]; intros w Hn Hno; [done|].
  simpl in Hno. apply andb_prop in Hno as [Ha Hno]. apply negb_true_iff in Ha.
  destruct (step_not_subscribed n a w Hn Ha) as [Hn' Hl].
  rewrite run_cons. destruct (IH _ Hn' Hno) as [H1 H2].
  split; [done|]. by rewrite H2.
Qed.

(** X2. Once the closure returned by [onUpdate] has run, the callback is
    not called again, whatever responses are adopted, until the same callback
    is passed to [onUpdate] again. *)
Theorem unsubscribed_is_not_notified :
  forall (cb : UpdateCallback) (acts : list action) (w : World),
    forallb (fun a => negb (registers (cb_id cb) a)) acts = true ->
    (cb_id cb ∉ subscriber_ids (this (run acts (step (do_unsubscribe cb) w))))
    /\ filter (fun o => is_invoke_of (cb_id cb) o)
              (log (run acts (step (do_unsubscribe cb) w)))
       = filter (fun o => is_invoke_of (cb_id cb) o) (log w).
Proof.
  intros cb acts w Hno.
  assert (Hn : cb_id cb ∉ subscriber_ids (this (step (do_unsubscribe cb) w))).
  { unfold subscriber_ids. rewrite step_updateCallbacks, set_delete_ids.
    intros H. apply list_elem_of_filter in H as [H _]. done. }
  destruct (run_not_subscribed _ acts _ Hn Hno) as [H1 H2].
  split; [done|]. rewrite H2. by rewrite step_log, app_nil_r.
Qed.

Lemma unsubscribed_is_not_notified_witness :
  let acts := [resolved {| snapshot := a_snapshot 1; effects := no_effects |};
               do_onUpdate (quiet_cb 3);
               resolved {| snapshot := a_snapshot 2; effects := no_effects |}] in
  let w := {| this := {| this_snapshot := a_snapshot 0;
                         updateCallbacks := [quiet_cb 1; quiet_cb 2] |};
              log := [] |} in
  forallb (fun a => negb (registers 1 a)) acts = true
  /\ invoked_ids (log (run acts (step (do_unsubscribe (quiet_cb 1)) w))) = [2; 2; 3]
  /\ filter (fun o => is_invoke_of 1 o)
            (log (run acts (step (do_unsubscribe (quiet_cb 1)) w))) = [].
Proof.
  intros acts w. split; [reflexivity|]. split; [reflexivity|].
  apply (unsubscribed_is_not_notified (quiet_cb 1) acts w). reflexivity.
Defined.

(** X3. After [clearListeners()] an adopted response still replaces the
    snapshot, but nobody is called until somebody subscribes again. *)
Theorem clearListeners_silences_engine :
  forall (acts : list action) (w : World),
    forallb (fun a => negb (is_registration a)) acts = true ->
    updateCallbacks (this (run acts (step do_clearListeners w))) = []
    /\ filter (fun o => is_invoke o) (log (run acts (step do_clearListeners w)))
       = filter (fun o => is_invoke o) (log w)
    /\ this_snapshot (this (run acts (step do_clearListeners w)))
       = current_after acts w.
Proof.
  intros acts w Hno.
  assert (G : forall w0, updateCallbacks (this w0) = [] ->
                updateCallbacks (this (run acts w0)) = []
                /\ filter (fun o => is_invoke o) (log (run acts w0))
                   = filter (fun o => is_invoke o) (log w0)).
  { induction acts as [|a acts IH]; intros w0 He; [done|].
    simpl in Hno. apply andb_prop in Hno as [Ha Hno]. apply negb_true_iff in Ha.
    rewrite run_cons.
    destruct (IH Hno (step a w0)) as [H1 H2].
    - rewrite step_updateCallbacks, He. by destruct a.
    - split; [done|]. rewrite H2, step_log, filter_app, He.
      destruct a; simpl; by rewrite app_nil_r. }
  destruct (G (step do_clearListeners w) eq_refl) as [H1 H2].
  split; [done|]. split.
  - rewrite H2. by rewrite step_log, app_nil_r.
  - rewrite run_snapshot. unfold current_after. done.
Qed.

Lemma clearListeners_silences_engine_witness :
  let acts := [do_call "increment" [];
               resolved {| snapshot := a_snapshot 1; effects := no_effects |}] in
  let w := {| this := {| this_snapshot := a_snapshot 0;
                         updateCallbacks := [quiet_cb 1; raising_cb 2] |};
              log := [] |} in
  forallb (fun a => negb (is_registration a)) acts = true
  /\ filter (fun o => is_invoke o) (log (run acts (step do_clearListeners w))) = []
  /\ getState (this (run acts (step do_clearListeners w))) = JObj [("count", JNum 1)].
Proof.
  intros acts w. split; [reflexivity|]. split; [|reflexivity].
  apply (clearListeners_silences_engine acts w). reflexivity.
Defined.

Lemma set_delete_fresh {A : Type} (c : Callback A) (s : list (Callback A)) :
  cb_id c ∉ map cb_id s -> set_delete c s = s.
Proof.
  unfold set_delete. induction s as [|d s IH]; intros Hn; [done|].
  simpl in Hn. apply not_elem_of_cons in Hn as [Hne Hn].
  rewrite filter_cons.
  destruct (same_cb c d) eqn:E; [by apply same_cb_spec in E|].
  simpl. by rewrite IH.
Qed.

Lemma set_delete_add {A : Type} (c : Callback A) (s : list (Callback A)) :
  cb_id c ∉ map cb_id s -> set_delete c (set_add c s) = s.
Proof.
  intros Hn. unfold set_add.
  destruct (existsb (same_cb c) s) eqn:E; [by apply existsb_same_cb in E|].
  unfold set_delete. rewrite filter_app. fold (set_delete c s).
  rewrite set_delete_fresh by done. rewrite filter_cons.
  unfold same_cb. rewrite Nat.eqb_refl. simpl. by rewrite app_nil_r.
Qed.

Lemma set_add_twice {A : Type} (c : Callback A) (s : list (Callback A)) :
  set_add c (set_add c s) = set_add c s.
Proof.
  unfold set_add at 1.
  assert (existsb (same_cb c) (set_add c s) = true) as ->; [|done].
  apply existsb_same_cb. rewrite set_add_ids.
  destruct (existsb (same_cb c) s) eqn:E; [by apply existsb_same_cb|].
  apply elem_of_app. right. by apply list_elem_of_singleton.
Qed.

Lemma set_delete_twice {A : Type} (c : Callback A) (s : list (Callback A)) :
  set_delete c (set_delete c s) = set_delete c s.
Proof.
  apply set_delete_fresh. rewrite set_delete_ids.
  intros H. apply list_elem_of_filter in H as [H _]. done.
Qed.

(** X4. Subscribing twice is subscribing once, unsubscribing twice is
    unsubscribing once, and after the closure [onUpdate] returned has run
    the callback is not subscribed, whatever the subscribers were. For a
    callback that is not yet subscribed, [onUpdate] followed by its closure
    restores the subscribers exactly, order included. For a callback that
    is already subscribed [onUpdate] changes nothing, so the closure it
    returns removes the earlier subscription. *)
Theorem onUpdate_unsubscribe_round_trip :
  forall (cb : UpdateCallback) (w : World),
    step (do_onUpdate cb) (step (do_onUpdate cb) w) = step (do_onUpdate cb) w
    /\ step (do_unsubscribe cb) (step (do_unsubscribe cb) w)
       = step (do_unsubscribe cb) w
    /\ (cb_id cb ∉ subscriber_ids (this (step (do_unsubscribe cb) w)))
    /\ (cb_id cb ∉ subscriber_ids (this w) ->
        updateCallbacks (this (step (do_unsubscribe cb) (step (do_onUpdate cb) w)))
        = updateCallbacks (this w))
    /\ (cb_id cb ∈ subscriber_ids (this w) ->
        updateCallbacks (this (step (do_onUpdate cb) w)) = updateCallbacks (this w)
        /\ updateCallbacks (this (step (do_unsubscribe cb) (step (do_onUpdate cb) w)))
           = set_delete cb (updateCallbacks (this w))).
Proof.
  intros cb w. split_and!.
  - unfold step. simpl. unfold onUpdate, bind, get, set_updateCallbacks, modify.
    simpl. by rewrite set_add_twice.
  - unfold step. simpl. unfold unsubscribe, bind, get, set_updateCallbacks, modify.
    simpl. by rewrite set_delete_twice.
  - unfold subscriber_ids. rewrite step_updateCallbacks, set_delete_ids.
    intros H. apply list_elem_of_filter in H as [H _]. done.
  - intros Hn. rewrite !step_updateCallbacks. by apply set_delete_add.
  - intros Hin. rewrite !step_updateCallbacks. unfold set_add.
    apply existsb_same_cb in Hin. by rewrite Hin.
Qed.

(** A third callback is subscribed and unsubscribed; the first, subscribed
    again, is removed by the closure of the second subscription. *)
Lemma onUpdate_unsubscribe_round_trip_witness :
  let w := {| this := {| this_snapshot := a_snapshot 0;
                         updateCallbacks := [quiet_cb 1; raising_cb 2] |};
              log := [] |} in
  (3 ∉ subscriber_ids (this w))
  /\ updateCallbacks (this (step (do_unsubscribe (quiet_cb 3))
                                 (step (do_onUpdate (quiet_cb 3)) w)))
     = updateCallbacks (this w)
  /\ (1 ∈ subscriber_ids (this w))
  /\ updateCallbacks (this (step (do_unsubscribe (quiet_cb 1))
                                 (step (do_onUpdate (quiet_cb 1)) w)))
     = [raising_cb 2].
Proof.
  intros w.
  assert (Hn : 3 ∉ subscriber_ids (this w)).
  { intros H. repeat (apply elem_of_cons in H as [H|H]; [discriminate H|]).
    by apply elem_of_nil in H. }
  assert (Hin : 1 ∈ subscriber_ids (this w)) by (by left).
  destruct (onUpdate_unsubscribe_round_trip (quiet_cb 3) w) as (_ & _ & _ & Hback & _).
  destruct (onUpdate_unsubscribe_round_trip (quiet_cb 1) w) as (_ & _ & _ & _ & Hsub).
  destruct (Hsub Hin) as [_ Hgone].
  split; [exact Hn|]. split; [exact (Hback Hn)|]. split; [exact Hin|].
  rewrite Hgone. reflexivity.
Defined.

(** X5. Every request that [call], [set] or [batch] hands to
    [client.update] carries the snapshot that is current when the operation
    starts: the snapshot of the response adopted last, or the mounted one;
    two operations started before either response arrives send the same
    snapshot. *)
Theorem requests_carry_current_snapshot :
  forall (acts : list action) (w : World),
    (forall m ps,
        log (step (do_call m ps) (run acts w))
        = log (run acts w)
          ++ [client_update
                {| req_snapshot := current_after acts w;
                   req_updates :=
                     [ {| type := callMethod;
                          payload := {| method := Some m; params := Some ps;
                                        field := None; value := None |} |} ] |}])
    /\ (forall f v,
          log (step (do_set f v) (run acts w))
          = log (run acts w)
            ++ [client_update
                  {| req_snapshot := current_after acts w;
                     req_updates :=
                       [ {| type := syncInput;
                            payload := {| method := None; params := None;
                                          field := Some f; value := Some v |} |} ] |}])
    /\ (forall ops,
          log (step (do_batch ops) (run acts w))
          = log (run acts w)
            ++ [client_update {| req_snapshot := current_after acts w;
                                 req_updates := map to_update ops |}])
    /\ (forall ops ops',
          filter (fun o => is_client_update o)
                 (log (run [do_batch ops; do_batch ops'] (run acts w)))
          = filter (fun o => is_client_update o) (log (run acts w))
            ++ [client_update {| req_snapshot := current_after acts w;
                                 req_updates := map to_update ops |};
                client_update {| req_snapshot := current_after acts w;
                                 req_updates := map to_update ops' |}]).
Proof.
  intros acts w. unfold current_after. rewrite <- run_snapshot.
  split_and!; intros; rewrite ?step_log; try done.
  rewrite !run_cons. simpl run. rewrite !step_log. simpl.
  rewrite <- app_assoc, !filter_app. done.
Qed.

End EngineSubscribers.

(** * More on the hooks *)

Section HookOperations.

Import Component Hook.

Lemma round_trip_resolved (us : list Update) (r : UpdateResponse)
    (inst : LiveGoComponent) (l : list obs) :
  (sendUpdates_request us ;;; sendUpdates_resume (inr r))
    {| Component.this := inst; Component.log := l |}
  = (Ok tt,
     {| Component.this := {| this_snapshot := snapshot r;
                             updateCallbacks := updateCallbacks inst |};
        Component.log :=
          l ++ [client_update {| req_snapshot := this_snapshot inst;
                                 req_updates := us |}]
            ++ notify_entries (updateCallbacks inst) (state (snapshot r))
                 (effects r) (snapshot r) |}).
Proof.
  unfold bind. rewrite sendUpdates_request_eq, sendUpdates_resume_resolved.
  simpl. by rewrite <- app_assoc.
Qed.

(** An operation of a hook that holds an instance, when the request is
    rejected. *)
Lemma guarded_rejected (fw : framework) (us : list Update) (e : exn)
    (inst : LiveGoComponent) (h : Hook) :
  livego h = Some inst ->
  guarded fw (sendUpdates_request us) (inl e) h
  = (Raise e,
     set_error (Some e)
       (set_log (Hook.log h ++ [client_update {| req_snapshot := this_snapshot inst;
                                                  req_updates := us |}])
          (set_livego (Some inst) (set_error None h)))).
Proof.
  intros Hi. unfold guarded. unfold bind at 1. unfold get at 1. rewrite Hi.
  reflexivity.
Qed.

(** An operation of a hook that holds an instance, when the request is
    answered. *)
Lemma guarded_resolved (fw : framework) (us : list Update) (r : UpdateResponse)
    (inst : LiveGoComponent) (h : Hook) :
  livego h = Some inst ->
  guarded fw (sendUpdates_request us) (inr r) h
  = (Ok tt,
     let h1 :=
       set_log (Hook.log h
                ++ [client_update {| req_snapshot := this_snapshot inst;
                                     req_updates := us |}]
                ++ notify_entries (updateCallbacks inst) (state (snapshot r))
                     (effects r) (snapshot r))
         (set_livego (Some {| this_snapshot := snapshot r;
                              updateCallbacks := updateCallbacks inst |})
            (set_error None h)) in
     if existsb (same_cb hook_callback) (updateCallbacks inst)
     then set_effects (Some (effects r))
            (set_mirrored (shown fw (state (snapshot r))) h1)
     else h1).
Proof.
  intros Hi. unfold guarded. unfold bind at 1. unfold get at 1. rewrite Hi.
  remember (bind (sendUpdates_request us) (fun _ => sendUpdates_resume (inr r)))
    as rt eqn:Hrt.
  assert (E := round_trip_resolved us r inst (Hook.log h)). rewrite <- Hrt in E.
  clear Hrt.
  unfold try_catch, on_instance, bind, modify. simpl. rewrite E. simpl.
  unfold mirror, shown.
  destruct (existsb (same_cb hook_callback) (updateCallbacks inst));
    reflexivity.
Qed.

(** [mount] of the hook when [client.mount] rejects. *)
Lemma mount_rejected (fw : framework) (name : string) (ps : any) (e : exn) (h : Hook) :
  mount fw name ps (inl e) h
  = (Raise e,
     set_isLoading false
       (set_error (Some e)
          (set_log (Hook.log h ++ [client_mount {| component := name; props := ps |}])
             (set_isMounted false
                (set_error None
                   (set_isLoading true
                      (if subscribed h
                       then set_subscribed false
                              match livego h with
                              | Some inst =>
                                  set_livego
                                    (Some {| this_snapshot := this_snapshot inst;
                                             updateCallbacks :=
                                               set_delete hook_callback
                                                 (updateCallbacks inst) |}) h
                              | None => h
                              end
                       else h))))))).
Proof.
  unfold mount. unfold bind at 1. unfold get at 1.
  destruct (subscribed h) eqn:Hs.
  - destruct (livego h) as [inst|] eqn:Hi; reflexivity.
  - reflexivity.
Qed.

(** [mount] of the hook when [client.mount] answers. *)
Lemma mount_resolved (fw : framework) (name : string) (ps : any)
    (r : MountResponse) (h : Hook) :
  fst (mount fw name ps (inr r) h) = Ok tt
  /\ livego (snd (mount fw name ps (inr r) h))
     = Some {| this_snapshot := mount_snapshot r; updateCallbacks := [hook_callback] |}
  /\ isMounted (snd (mount fw name ps (inr r) h)) = true
  /\ isLoading (snd (mount fw name ps (inr r) h)) = false
  /\ subscribed (snd (mount fw name ps (inr r) h)) = true
  /\ last_error (snd (mount fw name ps (inr r) h)) = None
  /\ last_effects (snd (mount fw name ps (inr r) h)) = last_effects h
  /\ mirrored (snd (mount fw name ps (inr r) h))
     = match fw with
       | Vue => Object_assign (mirrored h) (state (mount_snapshot r))
       | React => state (mount_snapshot r)
       end
  /\ Hook.log (snd (mount fw name ps (inr r) h))
     = Hook.log h ++ [client_mount {| component := name; props := ps |}].
Proof.
  unfold mount, bind, get, try_finally, try_catch, modify, on_instance,
    Component.mount, onUpdate, unsubscribe, set_updateCallbacks, ret.
  simpl. destruct (subscribed h), (livego h), fw; simpl; repeat split.
Qed.

Lemma hook_run_snoc (fw : framework) (name : string) (ps : any)
    (acts : list action) (a : action) (h : Hook) :
  run fw name ps (acts ++ [a]) h
  = snd (perform fw name ps a (run fw name ps acts h)).
Proof. unfold run. by rewrite fold_left_app. Qed.

(** What one operation does to the flags and to the instance. *)
Lemma perform_flags (fw : framework) (name : string) (ps : any) (a : action)
    (h : Hook) :
  let h' := snd (perform fw name ps a h) in
  isLoading h' = match a with do_mount _ => false | _ => isLoading h end
  /\ isMounted h' = match a with
                    | do_mount (inr _) => true
                    | do_mount (inl _) => false
                    | _ => isMounted h
                    end
  /\ subscribed h' = match a with
                     | do_mount (inr _) => true
                     | do_mount (inl _) => false
                     | _ => subscribed h
                     end
  /\ (is_Some (livego h') <-> is_Some (livego h) \/ mount_succeeds a = true).
Proof.
  assert (G : forall us settled,
             let h' := snd (guarded fw (sendUpdates_request us) settled h) in
             isLoading h' = isLoading h /\ isMounted h' = isMounted h
             /\ subscribed h' = subscribed h
             /\ (is_Some (livego h') <-> is_Some (livego h) \/ false = true)).
  { intros us settled. destruct (livego h) as [inst|] eqn:Hi.
    - destruct settled as [e|r].
      + rewrite (guarded_rejected fw us e inst h Hi). simpl. repeat split; eauto.
      + rewrite (guarded_resolved fw us r inst h Hi). simpl.
        destruct (existsb _ _); simpl; repeat split; eauto.
    - rewrite guarded_without_instance by done. simpl. rewrite Hi.
      repeat split; try done. intros [[x Hx]|Hf]; done. }
  destruct a as [[e|r]|m args st|f v st|ops st|]; simpl.
  - rewrite mount_rejected. simpl.
    destruct (subscribed h) eqn:Hs, (livego h) eqn:Hi; simpl; rewrite ?Hs, ?Hi;
      repeat split; eauto;
      try (intros [[x Hx]|Hf]; done); try (intros [x Hx]; done).
  - destruct (mount_resolved fw name ps r h) as (_ & -> & -> & -> & -> & _).
    repeat split; eauto.
  - apply G.
  - apply G.
  - apply G.
  - unfold cleanup, bind, get, on_instance, unsubscribe, clearListeners,
      set_updateCallbacks, modify, ret. simpl.
    destruct (subscribed h) eqn:Hs, (livego h) eqn:Hi; simpl; rewrite ?Hi; simpl;
      rewrite ?Hi; repeat split; eauto; try (intros [[x Hx]|Hf]; done).
Qed.

(** X6. Along every run of a hook, [isLoading] is false between
    operations, [isMounted] tells whether the most recent mount succeeded (a
    failed remount turns it off), and the hook holds an instance exactly when
    some mount of the run has succeeded: an instance, once obtained, is never
    dropped. *)
Theorem hook_flags_follow_mounts :
  forall (fw : framework) (name : string) (ps : any) (acts : list action),
    isLoading (run fw name ps acts initial) = false
    /\ isMounted (run fw name ps acts initial) = mounted_last acts
    /\ (is_Some (livego (run fw name ps acts initial))
        <-> existsb mount_succeeds acts = true).
Proof.
  intros fw name ps acts. induction acts as [|a acts IH] using rev_ind.
  - repeat split; try done. intros [x Hx]; done.
  - destruct IH as (IH1 & IH2 & IH3).
    rewrite hook_run_snoc.
    destruct (perform_flags fw name ps a (run fw name ps acts initial))
      as (H1 & H2 & _ & H4).
    rewrite H1, H2. unfold mounted_last. rewrite fold_left_app. simpl.
    fold (mounted_last acts). rewrite existsb_app. simpl. rewrite orb_false_r.
    split; [by destruct a|]. split; [by destruct a as [[?|?]| | | |]|].
    rewrite H4, IH3. rewrite orb_true_iff. done.
Qed.






(** X8. In a hook that holds an instance, a [call], [set] or [batch] whose
    request is rejected rethrows the rejection and records it as the hook's
    error; the mirrored state and effects, [isMounted] and the instance with
    its snapshot are as before, and one request was sent. *)
Theorem operation_records_rejection :
  forall (fw : framework) (e : exn) (inst : LiveGoComponent) (h : Hook),
    livego h = Some inst ->
    (forall m args, records_rejection (call fw m args (inl e) h) e h inst)
    /\ (forall f v, records_rejection (set fw f v (inl e) h) e h inst)
    /\ (forall ops, records_rejection (batch fw ops (inl e) h) e h inst).
Proof.
  intros fw e inst h Hi.
  assert (G : forall us,
             records_rejection (guarded fw (sendUpdates_request us) (inl e) h) e h inst).
  { intros us. rewrite (guarded_rejected fw us e inst h Hi).
    unfold records_rejection. simpl. repeat split. by eexists. }
  split_and!; intros; apply G.
Qed.

Lemma operation_records_rejection_witness :
  let r0 := {| mount_snapshot := a_snapshot 0 |} in
  let h := snd (mount React "Counter" JNull (inr r0) initial) in
  let inst := {| this_snapshot := a_snapshot 0; updateCallbacks := [hook_callback] |} in
  livego h = Some inst
  /\ records_rejection (call React "increment" [] (inl (Error "offline")) h)
       (Error "offline") h inst.
Proof.
  intros r0 h inst.
  assert (Hi : livego h = Some inst) by reflexivity.
  split; [exact Hi|].
  destruct (operation_records_rejection React (Error "offline") inst h Hi) as [Hcall _].
  exact (Hcall "increment" []).
Defined.

(** X9. A remount that fails keeps the instance of the earlier mount but
    takes the hook's subscriber off it. From then on [call], [set] and
    [batch] do not throw the not-mounted error: they reach the transport with
    the old instance, whose snapshot follows the responses, while the state
    and effects the hook shows stay as they were and [isMounted] stays
    false. *)
Theorem failed_remount_leaves_stale_mirror :
  forall (fw : framework) (name : string) (ps : any) (r0 : MountResponse)
         (e : exn) (us : list Update) (r : UpdateResponse) (h0 : Hook),
    let h1 := snd (mount fw name ps (inr r0) h0) in
    let h2 := snd (mount fw name ps (inl e) h1) in
    let out := guarded fw (sendUpdates_request us) (inr r) h2 in
    fst (mount fw name ps (inl e) h1) = Raise e
    /\ isMounted h2 = false
    /\ last_error h2 = Some e
    /\ livego h2 = Some {| this_snapshot := mount_snapshot r0; updateCallbacks := [] |}
    /\ mirrored h2 = mirrored h1
    /\ fst out = Ok tt
    /\ livego (snd out)
       = Some {| this_snapshot := snapshot r; updateCallbacks := [] |}
    /\ mirrored (snd out) = mirrored h1
    /\ last_effects (snd out) = last_effects h0
    /\ isMounted (snd out) = false
    /\ Hook.log (snd out)
       = Hook.log h2 ++ [client_update {| req_snapshot := mount_snapshot r0;
                                          req_updates := us |}].
Proof.
  intros fw name ps r0 e us r h0 h1 h2 out.
  destruct (mount_resolved fw name ps r0 h0)
    as (_ & Hi & Hm & Hl & Hs & He & Hef & Hmir & Hlog).
  fold h1 in Hi, Hm, Hl, Hs, He, Hef, Hmir, Hlog.
  assert (E2 := mount_rejected fw name ps e h1). rewrite Hs, Hi in E2. simpl in E2.
  assert (Hi2 : livego h2
                = Some {| this_snapshot := mount_snapshot r0; updateCallbacks := [] |}).
  { unfold h2. rewrite E2. reflexivity. }
  assert (Eout := guarded_resolved fw us r _ h2 Hi2). fold out in Eout. simpl in Eout.
  rewrite Eout. unfold h2. rewrite E2. simpl. rewrite ?app_nil_r.
  repeat split; done.
Qed.





End HookOperations.

Section HookCleanup.

Import Component Hook.

(** The cleanup of a hook that holds an instance. *)
Lemma cleanup_eq (h : Hook) (inst : LiveGoComponent) :
  livego h = Some inst ->
  cleanup h
  = (Ok tt,
     set_livego (Some {| this_snapshot := this_snapshot inst;
                         updateCallbacks := [] |}) h).
Proof.
  intros Hi. destruct h as [lg mi le im il er su lo]. simpl in Hi. subst lg.
  unfold cleanup, bind, get, on_instance, unsubscribe, clearListeners,
    set_updateCallbacks, modify, ret.
  simpl. by destruct su.
Qed.

(** X26. The cleanup run when the host component unmounts leaves the
    instance without any update callback. A [call] made afterwards still
    sends its request with the instance's snapshot and, when it is
    answered, moves the instance to the response's snapshot; but nobody is
    notified and the state and effects the hook returned stay as they were
    before the unmount. *)
Theorem unmounted_hook_stops_mirroring :
  forall (fw : framework) (h : Hook) (inst : LiveGoComponent) (m : string)
         (args : list any) (r : UpdateResponse),
    livego h = Some inst ->
    let h1 := snd (cleanup h) in
    let out := call fw m args (inr r) h1 in
    fst (cleanup h) = Ok tt
    /\ (updateCallbacks <$> livego h1) = Some []
    /\ fst out = Ok tt
    /\ mirrored (snd out) = mirrored h
    /\ last_effects (snd out) = last_effects h
    /\ (getSnapshot <$> livego (snd out)) = Some (snapshot r)
    /\ Hook.log (snd out)
       = Hook.log h
         ++ [client_update
               {| req_snapshot := this_snapshot inst;
                  req_updates :=
                    [ {| type := callMethod;
                         payload := {| method := Some m; params := Some args;
                                       field := None; value := None |} |} ] |}].
Proof.
  intros fw h inst m args r Hi h1 out.
  unfold out, h1. rewrite (cleanup_eq h inst Hi).
  unfold call, Component.call. cbn [fst snd].
  rewrite (guarded_resolved fw _ r {| this_snapshot := this_snapshot inst;
                                   updateCallbacks := [] |}) by reflexivity.
  simpl. by rewrite ?app_nil_r.
Qed.

(** A hook mounted under React, unmounted, then used. *)
Lemma unmounted_hook_witness :
  let h := snd (mount React "counter" JNull
                  (inr {| mount_snapshot := a_snapshot 0 |})
                  initial) in
  let h1 := snd (cleanup h) in
  (updateCallbacks <$> livego h) = Some [hook_callback]
  /\ (updateCallbacks <$> livego h1) = Some []
  /\ mirrored (snd (call React "increment" []
                      (inr {| snapshot := a_snapshot 1; effects := no_effects |}) h1))
     = mirrored h.
Proof.
  intros h h1. split; [reflexivity|].
  destruct (unmounted_hook_stops_mirroring React h
              {| this_snapshot := a_snapshot 0; updateCallbacks := [hook_callback] |}
              "increment" []
              {| snapshot := a_snapshot 1; effects := no_effects |} eq_refl)
    as (_ & Hcbs & _ & Hm & _).
  split; [exact Hcbs | exact Hm].
Defined.

End HookCleanup.

(** * More on the push-event channel *)

Ltac unfold_stream :=
  unfold Stream.step, Stream.perform, Stream.fire, Stream.expire,
    Stream.reconnect_timer, Stream.onopen, Stream.onerror, Stream.onmessage,
    Stream.named_listener, Stream.connect, Stream.disconnect,
    Stream.setupEventListeners, Stream.on, Stream.unsubscribe, Stream.off,
    Stream.optional_call, Stream.setTimeout, Stream.clearTimeout,
    Stream.set_eventSource, Stream.set_reconnectTimeout, Stream.set_listeners,
    Stream.set_reconnectAttempts, Stream.with_this, Stream.emit, when, outcome,
    bind, get, modify, ret, throw in *.

Ltac grind :=
  unfold_stream; simpl;
  repeat (first [ rewrite handleMessage_eq in * | case_match ];
          simplify_eq/=);
  try done.

Section ChannelInvariants.

Import Stream.

Variable JSON_parse : string -> option any.

(** [handleMessage] writes nothing but dispatch entries. *)
Lemma handled_dispatch_entries (s : LiveGoStream) (ev : MessageEvent)
    (eventType : option string) :
  Forall (fun o => is_dispatch_entry o = true) (handled JSON_parse s ev eventType).
Proof.
  unfold handled.
  destruct (JSON_parse (ev_data ev)) as [d|]; [|by repeat constructor].
  simpl.
  assert (Hl : forall t ls, Forall (fun o => is_dispatch_entry o = true)
                              (fst (delivered t d ls))).
  { intros t. induction ls as [|cb ls IH]; simpl; [constructor|].
    destruct (cb_run cb d); simpl; [by repeat constructor|].
    destruct (delivered t d ls) as [l r]. simpl in *. by constructor. }
  assert (Ht : forall t, Forall (fun o => is_dispatch_entry o = true)
                 match listeners s !! t with
                 | Some ls =>
                     fst (delivered t d ls)
                     ++ match snd (delivered t d ls) with
                        | Some _ => [parse_failure]
                        | None => []
                        end
                 | None => []
                 end).
  { intros t. destruct (listeners s !! t) as [ls|]; [|constructor].
    apply Forall_app. split; [apply Hl|].
    destruct (snd _); by repeat constructor. }
  destruct (onEvent (options s)) as [f|]; [|apply Ht].
  constructor; [done|].
  destruct (cb_run f _); [by repeat constructor|apply Ht].
Qed.

Lemma filter_none {A : Type} (p : A -> bool) (l : list A) :
  Forall (fun x => p x = false) l -> filter (fun x => p x) l = [].
Proof.
  induction 1 as [|x l Hx Hl IH]; [done|].
  rewrite filter_cons. rewrite Hx. simpl. exact IH.
Qed.

Lemma handled_filter (p : obs -> bool) (s : LiveGoStream) (ev : MessageEvent)
    (eventType : option string) :
  (forall o, is_dispatch_entry o = true -> p o = false) ->
  filter (fun o => p o) (handled JSON_parse s ev eventType) = [].
Proof.
  intros Hp. apply filter_none.
  eapply Forall_impl; [apply handled_dispatch_entries|]. exact Hp.
Qed.

Lemma step_one_source (h : happening) (w : World) :
  opened (log w) = closed (log w) + held (this w) ->
  opened (log (step JSON_parse h w))
  = closed (log (step JSON_parse h w)) + held (this (step JSON_parse h w)).
Proof.
  unfold opened, closed, held. intros Hinv.
  assert (Hh : forall s ev et,
             filter (fun o => is_new_EventSource o) (handled JSON_parse s ev et) = []
             /\ filter (fun o => is_es_close o) (handled JSON_parse s ev et) = []).
  { intros. split; apply handled_filter; by intros []. }
  destruct h as [| |e cb|e cb|e cb|type ev|t]; grind;
    unfold add_log; simpl;
    rewrite ?filter_app, ?length_app; simpl;
    repeat match goal with
           | |- context [handled JSON_parse ?s ?ev ?et] =>
               destruct (Hh s ev et) as [-> ->]
           end; simpl;
    repeat match goal with
           | H : eventSource _ = _ |- _ => rewrite H in Hinv
           end; simpl in *; lia.
Qed.

Lemma run_one_source (hs : list happening) :
  forall (w w' : World),
    run JSON_parse hs w = Some w' ->
    opened (log w) = closed (log w) + held (this w) ->
    opened (log w') = closed (log w') + held (this w').
Proof.
  induction hs as [|h hs IH]; intros w w' Hrun Hinv.
  - simpl in Hrun. by simplify_eq.
  - simpl in Hrun. destruct (possible h w); [|done].
    apply (IH _ _ Hrun). by apply step_one_source.
Qed.

(** X11. A channel never holds two sources: along every run, whatever the
    callbacks do, the sources created are one more than the sources closed
    while a source is held and as many otherwise; [connect()] on a channel
    that holds a source creates nothing. *)
Theorem at_most_one_source :
  forall (getEndpoint cid sig : string) (opts : StreamOptions)
         (hs : list happening) (w : World),
    run JSON_parse hs (new_World (new_LiveGoStream getEndpoint cid sig opts)) = Some w ->
    opened (log w) = closed (log w) + held (this w)
    /\ (held (this w) = 1 -> connect w = (Ok tt, w)).
Proof.
  intros g cid sig opts hs w Hrun. split.
  - by apply (run_one_source hs _ w Hrun).
  - intros Hh. rewrite connect_eq. unfold held in Hh.
    by destruct (eventSource (this w)).
Qed.

Lemma step_attempts_bounded (h : happening) (w : World) :
  reconnectAttempts (this w) <= maxReconnectAttempts (this w) ->
  reconnectAttempts (this (step JSON_parse h w))
  <= maxReconnectAttempts (this (step JSON_parse h w)).
Proof.
  intros Hinv.
  destruct h as [| |e cb|e cb|e cb|type ev|t]; grind; try lia;
    repeat match goal with
           | H : _ && _ = true |- _ => apply andb_prop in H as [? ?]
           | H : Nat.ltb _ _ = true |- _ => apply Nat.ltb_lt in H
           end; simpl in *; lia.
Qed.

(** X12. The retry counter never exceeds the maximum of five: along every
    run, with any options and callbacks, even throwing ones. *)
Theorem retry_counter_is_bounded :
  forall (getEndpoint cid sig : string) (opts : StreamOptions)
         (hs : list happening) (w : World),
    run JSON_parse hs (new_World (new_LiveGoStream getEndpoint cid sig opts)) = Some w ->
    reconnectAttempts (this w) <= 5 /\ maxReconnectAttempts (this w) = 5.
Proof.
  intros g cid sig opts hs w Hrun.
  assert (G : forall hs w w',
             run JSON_parse hs w = Some w' ->
             maxReconnectAttempts (this w) = 5 ->
             reconnectAttempts (this w) <= 5 ->
             reconnectAttempts (this w') <= 5 /\ maxReconnectAttempts (this w') = 5).
  { clear. induction hs as [|h hs IH]; intros w w' Hrun Hm Ha.
    - simpl in Hrun. by simplify_eq.
    - simpl in Hrun. destruct (possible h w); [|done].
      destruct (step_config JSON_parse h w) as [_ Hm'].
      apply (IH _ _ Hrun); [by rewrite Hm'|].
      pose proof (step_attempts_bounded h w) as Hb. rewrite Hm', Hm in Hb.
      apply Hb. lia. }
  apply (G hs _ w Hrun); simpl; [done|lia].
Qed.

End ChannelInvariants.

Section ChannelBehaviour.

Import Stream.

Variable JSON_parse : string -> option any.

Lemma step_reconnect_off (h : happening) (w : World) :
  default false (reconnect (options (this w))) = false ->
  timers w = [] /\ reconnectTimeout (this w) = None
  /\ filter (fun o => is_window_setTimeout o) (log w) = [] ->
  timers (step JSON_parse h w) = []
  /\ reconnectTimeout (this (step JSON_parse h w)) = None
  /\ filter (fun o => is_window_setTimeout o) (log (step JSON_parse h w)) = [].
Proof.
  intros Hoff (Ht & Hr & Hl).
  assert (Hh : forall s ev et,
             filter (fun o => is_window_setTimeout o) (handled JSON_parse s ev et) = []).
  { intros. apply handled_filter. by intros []. }
  destruct h as [| |e cb|e cb|e cb|type ev|t]; grind;
    unfold add_log, without_timer; simpl;
    rewrite ?filter_app, ?Hh, ?Hl, ?Ht; simpl; try done;
    try congruence;
    try (by match goal with
            | H : default false _ && _ = true |- _ => rewrite Hoff in H
            end).
Qed.

(** X13. With [reconnect: false] the channel never schedules anything:
    along every run no timer is set or pending; and an error, once the
    error callback has returned, closes and drops the source at once. *)
Theorem reconnect_disabled_never_schedules :
  forall (getEndpoint cid sig : string) (opts : StreamOptions)
         (hs : list happening) (w : World),
    run JSON_parse hs (new_World (new_LiveGoStream getEndpoint cid sig opts)) = Some w ->
    reconnect opts = Some false ->
    timers w = []
    /\ reconnectTimeout (this w) = None
    /\ filter (fun o => is_window_setTimeout o) (log w) = []
    /\ (returns (onError opts) ->
        is_Some (eventSource (this w)) ->
        forall ev,
          eventSource (this (step JSON_parse (fires "error" ev) w)) = None
          /\ closed (log (step JSON_parse (fires "error" ev) w)) = S (closed (log w))).
Proof.
  intros g cid sig opts hs w Hrun Hoff.
  assert (G : forall hs w w',
             run JSON_parse hs w = Some w' ->
             default false (reconnect (options (this w))) = false ->
             timers w = [] /\ reconnectTimeout (this w) = None
             /\ filter (fun o => is_window_setTimeout o) (log w) = [] ->
             timers w' = [] /\ reconnectTimeout (this w') = None
             /\ filter (fun o => is_window_setTimeout o) (log w') = []).
  { clear. induction hs as [|h hs IH]; intros w w' Hrun Hoff Hinv.
    - simpl in Hrun. by simplify_eq.
    - simpl in Hrun. destruct (possible h w); [|done].
      destruct (step_config JSON_parse h w) as [Hopt _].
      apply (IH _ _ Hrun); [by rewrite Hopt|]. by apply step_reconnect_off. }
  destruct (G hs _ w Hrun) as (H1 & H2 & H3).
  { simpl. by rewrite Hoff. }
  { done. }
  split_and!; try done.
  intros Hq Hes ev.
  destruct (run_invariants JSON_parse hs _ w Hrun) as (Hok & _ & Hopt).
  { by intros es Hes'. }
  { by intros [x Hx]. }
  simpl in Hopt. unfold step, perform. rewrite fire_eq by done. simpl.
  rewrite onerror_exhausted.
  2: { by rewrite Hopt. }
  2: { unfold will_retry. rewrite Hopt. simpl. by rewrite Hoff. }
  destruct (disconnect_fields (add_log (error_entries (this w)) w)) as (Hs & _).
  split; [exact Hs|].
  destruct Hes as [es Hes]. unfold closed.
  unfold disconnect, bind, get. simpl. rewrite H2. simpl. rewrite Hes. simpl.
  unfold optional_call.
  destruct (onDisconnect (options (this w))) as [f|]; simpl.
  - unfold bind, emit, modify, outcome. simpl.
    destruct (cb_run f ()); simpl;
      rewrite !filter_app, !length_app; simpl;
      unfold error_entries; destruct (onError (options (this w))); simpl; lia.
  - unfold bind, emit, modify, ret. simpl.
    rewrite !filter_app, !length_app; simpl.
    unfold error_entries; destruct (onError (options (this w))); simpl; lia.
Qed.

Lemma delivered_all_return (type : string) (d : any) (ls : list Listener) :
  Forall (fun c => cb_run c d = None) ls ->
  delivered type d ls = (calls_in_order type d ls, None).
Proof.
  induction 1 as [|c ls Hc Hls IH]; [done|].
  simpl. by rewrite Hc, IH.
Qed.

(** X14. A frame that parses, when neither the global handler nor a
    listener throws: [handleMessage] calls the global handler (if any) with
    the event, then every listener registered for the event's type exactly
    once, in registration order, with the parsed payload, and nothing else
    happens. *)
Theorem frame_reaches_listeners_in_order :
  forall (ev : MessageEvent) (eventType : option string) (w : World)
         (d : any) (ls : list Listener),
    JSON_parse (ev_data ev) = Some d ->
    returns (onEvent (options (this w))) ->
    listeners (this w) !! or_string eventType "message" = Some ls ->
    Forall (fun c => cb_run c d = None) ls ->
    handleMessage JSON_parse ev eventType w
    = (Ok tt,
       add_log
         (match onEvent (options (this w)) with
          | Some _ => [call_onEvent {| event := or_string eventType "message";
                                       data := d; id := lastEventId ev |}]
          | None => []
          end
          ++ calls_in_order (or_string eventType "message") d ls) w).
Proof.
  intros ev et w d ls Hd Hq Hls Hret.
  rewrite handleMessage_eq. unfold handled. rewrite Hd. simpl. rewrite Hls.
  rewrite delivered_all_return by done. simpl. rewrite app_nil_r.
  destruct (onEvent (options (this w))) as [f|] eqn:Hf; [|done].
  by rewrite (Hq f _ eq_refl).
Qed.

(** X15. When the global handler throws, the [catch] of [handleMessage]
    takes the exception: it is reported as a parse failure, no listener is
    called for that frame, and [handleMessage] returns normally. *)
Theorem throwing_global_handler_skips_listeners :
  forall (ev : MessageEvent) (eventType : option string) (w : World)
         (d : any) (f : Callback StreamEvent) (e : exn),
    JSON_parse (ev_data ev) = Some d ->
    onEvent (options (this w)) = Some f ->
    cb_run f {| event := or_string eventType "message"; data := d;
                id := lastEventId ev |} = Some e ->
    handleMessage JSON_parse ev eventType w
    = (Ok tt,
       add_log [call_onEvent {| event := or_string eventType "message";
                                data := d; id := lastEventId ev |};
                parse_failure] w).
Proof.
  intros ev et w d f e Hd Hf He.
  rewrite handleMessage_eq. unfold handled. rewrite Hd. simpl.
  by rewrite Hf, He.
Qed.

Lemma delivered_members (type : string) (d : any) (ls : list Listener) (o : obs) :
  o ∈ fst (delivered type d ls) ->
  exists cb, cb ∈ ls /\ o = call_listener type (cb_id cb) d.
Proof.
  induction ls as [|c ls IH]; simpl; [by intros H; apply elem_of_nil in H|].
  destruct (cb_run c d).
  - simpl. intros H. apply list_elem_of_singleton in H as ->.
    exists c. split; [by left|done].
  - destruct (delivered type d ls) as [l r]. simpl in *.
    intros H. apply elem_of_cons in H as [->|H].
    + exists c. split; [by left|done].
    + destruct (IH H) as (cb & Hcb & ->). exists cb. split; [by right|done].
Qed.

(** Whatever [handleMessage] writes about a listener concerns a listener
    registered for the type of the frame, and the parsed payload. *)
Lemma handled_members (s : LiveGoStream) (ev : MessageEvent)
    (eventType : option string) (type : string) (n : nat) (d : any) :
  call_listener type n d ∈ handled JSON_parse s ev eventType ->
  type = or_string eventType "message"
  /\ JSON_parse (ev_data ev) = Some d
  /\ exists ls cb, listeners s !! type = Some ls /\ cb ∈ ls /\ cb_id cb = n.
Proof.
  unfold handled. destruct (JSON_parse (ev_data ev)) as [d0|].
  2: { intros H. apply list_elem_of_singleton in H. discriminate H. }
  simpl.
  assert (G : call_listener type n d
              ∈ match listeners s !! or_string eventType "message" with
                | Some ls =>
                    fst (delivered (or_string eventType "message") d0 ls)
                    ++ match snd (delivered (or_string eventType "message") d0 ls) with
                       | Some _ => [parse_failure]
                       | None => []
                       end
                | None => []
                end ->
              type = or_string eventType "message" /\ Some d0 = Some d
              /\ exists ls cb, listeners s !! type = Some ls /\ cb ∈ ls /\ cb_id cb = n).
  { destruct (listeners s !! or_string eventType "message") as [ls|] eqn:Hls.
    2: { intros H. by apply elem_of_nil in H. }
    intros H. apply elem_of_app in H as [H|H].
    - apply delivered_members in H as (cb & Hcb & Heq).
      injection Heq as -> -> ->. split; [done|]. split; [done|].
      exists ls, cb. done.
    - destruct (snd _); [|by apply elem_of_nil in H].
      apply list_elem_of_singleton in H. discriminate H. }
  destruct (onEvent (options s)) as [f|]; [|exact G].
  intros H. apply elem_of_cons in H as [H|H]; [discriminate H|].
  destruct (cb_run f _); [|by apply G].
  apply list_elem_of_singleton in H. discriminate H.
Qed.

(** X16. A frame only ever reaches listeners registered for its own type:
    every listener call that [handleMessage] writes is for the type of the
    frame, carries the payload as [JSON.parse] returned it, and names a
    listener that is registered for that type at that moment. *)
Theorem listeners_are_called_for_their_type_only :
  forall (ev : MessageEvent) (eventType : option string) (w : World)
         (type : string) (n : nat) (d : any),
    call_listener type n d ∈ log (snd (handleMessage JSON_parse ev eventType w)) ->
    call_listener type n d ∈ log w
    \/ (type = or_string eventType "message"
        /\ JSON_parse (ev_data ev) = Some d
        /\ n ∈ slot_ids type (this w)).
Proof.
  intros ev et w type n d. rewrite handleMessage_eq. simpl.
  intros H. apply elem_of_app in H as [H|H]; [by left|]. right.
  apply handled_members in H as (Hty & Hd & ls & cb & Hls & Hcb & Hn).
  split; [done|]. split; [done|].
  unfold slot_ids, Listener in *. rewrite Hls. simpl. apply list_elem_of_fmap.
  exists cb. done.
Qed.

(** [disconnect] on a channel that holds neither a source nor a timer. *)
Lemma disconnect_idle (w : World) :
  eventSource (this w) = None ->
  reconnectTimeout (this w) = None ->
  disconnect w
  = (Ok tt, {| this := upd_listeners ∅ (this w); timers := timers w;
               next_timer := next_timer w; log := log w |}).
Proof.
  intros Hs Ht. unfold disconnect, bind, get. simpl. rewrite Ht. simpl.
  by rewrite Hs.
Qed.

(** X17. [disconnect()] and [connect()] are idempotent. A second
    [disconnect()], even after a first one whose disconnect callback threw,
    returns normally, writes nothing (the disconnect callback is not called
    again, nothing is closed or cancelled twice) and leaves an empty
    registry; a second [connect()] changes nothing. *)
Theorem connect_and_disconnect_are_idempotent :
  forall (w : World),
    let w1 := snd (disconnect w) in
    fst (disconnect w1) = Ok tt
    /\ log (snd (disconnect w1)) = log w1
    /\ timers (snd (disconnect w1)) = timers w1
    /\ eventSource (this (snd (disconnect w1))) = None
    /\ listeners (this (snd (disconnect w1))) = ∅
    /\ (fst (disconnect w) = Ok tt -> snd (disconnect w1) = w1)
    /\ connect (snd (connect w)) = (Ok tt, snd (connect w)).
Proof.
  intros w w1.
  destruct (disconnect_fields w) as (Hs & Ht & _).
  fold w1 in Hs, Ht.
  rewrite (disconnect_idle w1 Hs Ht). simpl. split_and!; try done.
  - intros Hok. unfold w1 in *. clear Hs Ht w1.
    destruct w as [s ts nt l]. destruct s.
    revert Hok. grind.
  - rewrite !connect_eq. simpl.
    destruct (eventSource (this w)) eqn:Hes; simpl; by rewrite ?Hes.
Qed.

Lemma without_timer_gone (t : positive) (ts : list (positive * Z)) :
  t ∉ map fst (without_timer t ts).
Proof.
  unfold without_timer. intros H.
  apply list_elem_of_fmap in H as (p & -> & Hp).
  apply list_elem_of_filter in Hp as [Hp _].
  rewrite Pos.eqb_refl in Hp. done.
Qed.

(** X18. [disconnect()] cancels the reconnect the channel has scheduled:
    the recorded timer is no longer pending afterwards, so it cannot expire
    and reopen the channel. *)
Theorem disconnect_cancels_recorded_timer :
  forall (w : World) (t : positive),
    reconnectTimeout (this w) = Some t ->
    (t ∉ map fst (timers (snd (disconnect w))))
    /\ possible (expires t) (snd (disconnect w)) = false
    /\ reconnectTimeout (this (snd (disconnect w))) = None.
Proof.
  intros w t Ht.
  destruct (disconnect_fields w) as (_ & Hr & Htim & _).
  rewrite Htim, Hr. unfold disconnect_timers. rewrite Ht.
  split; [apply without_timer_gone|]. split; [|done].
  simpl. apply not_true_iff_false. intros H.
  apply existsb_exists in H as (p & Hin & Hp).
  apply Pos.eqb_eq in Hp. subst t.
  rewrite Htim in Hin. unfold disconnect_timers in Hin. rewrite Ht in Hin.
  apply (without_timer_gone (fst p) (timers w)).
  apply list_elem_of_fmap. exists p. split; [done|]. by apply list_elem_of_In.
Qed.

End ChannelBehaviour.

Section ChannelRegistry.

Import Stream.

Variable JSON_parse : string -> option any.

(** What the methods do to the registry. *)
Lemma on_listeners (e : string) (cb : Listener) (w : World) :
  listeners (this (step JSON_parse (do_on e cb) w))
  = <[e := set_add cb (default [] (listeners (this w) !! e))]> (listeners (this w)).
Proof.
  unfold step, perform, on, bind, get, set_listeners, with_this, modify. simpl.
  destruct (listeners (this w) !! e) as [ls|] eqn:Hl; simpl.
  - unfold Listener in *. by rewrite Hl.
  - rewrite ?lookup_insert_eq. simpl. by rewrite insert_insert_eq.
Qed.

Lemma unsubscribe_listeners (e : string) (cb : Listener) (w : World) :
  listeners (this (step JSON_parse (do_unsubscribe e cb) w))
  = match listeners (this w) !! e with
    | Some ls =>
        if Nat.eqb (length (set_delete cb ls)) 0
        then delete e (listeners (this w))
        else <[e := set_delete cb ls]> (listeners (this w))
    | None => listeners (this w)
    end.
Proof.
  unfold step, perform, unsubscribe, bind, get, set_listeners, with_this, modify.
  simpl. destruct (listeners (this w) !! e) as [ls|]; [|done].
  by destruct (Nat.eqb (length (set_delete cb ls)) 0).
Qed.

Lemma off_listeners (e : string) (cb : option Listener) (w : World) :
  listeners (this (step JSON_parse (do_off e cb) w))
  = match cb with
    | Some c =>
        match listeners (this w) !! e with
        | Some ls => <[e := set_delete c ls]> (listeners (this w))
        | None => listeners (this w)
        end
    | None => delete e (listeners (this w))
    end.
Proof.
  unfold step, perform, off, bind, get, set_listeners, with_this, modify. simpl.
  destruct cb as [c|]; [|done].
  by destruct (listeners (this w) !! e).
Qed.

Lemma set_delete_after_add {A : Type} (c : Callback A) (s : list (Callback A)) :
  set_delete c (set_add c s) = set_delete c s.
Proof.
  unfold set_add. destruct (existsb (same_cb c) s); [done|].
  unfold set_delete. rewrite filter_app, filter_cons.
  unfold same_cb. rewrite Nat.eqb_refl. simpl. by rewrite app_nil_r.
Qed.

(** X19. After [on(type, cb)], [off(type)] frees the slot of the type
    whatever it held, and [off(type, cb)] leaves a slot with the listeners
    the type had without [cb], an empty one when there were none. For a
    listener that is not yet registered for the type, [on] followed by the
    closure it returned restores the registry exactly, freeing again the
    slot of a type that had none, with one exception: an empty slot, as
    [off(type, cb)] leaves behind, is not restored but freed, because the
    closure deletes a slot it finds empty. *)
Theorem on_unsubscribe_round_trip :
  forall (e : string) (cb : Listener) (w : World),
    listeners (this (step JSON_parse (do_off e None)
                       (step JSON_parse (do_on e cb) w))) !! e
    = None
    /\ listeners (this (step JSON_parse (do_off e (Some cb))
                          (step JSON_parse (do_on e cb) w))) !! e
       = Some (set_delete cb (default [] (listeners (this w) !! e)))
    /\ (cb_id cb ∉ slot_ids e (this w) ->
        listeners (this (step JSON_parse (do_unsubscribe e cb)
                           (step JSON_parse (do_on e cb) w)))
        = match listeners (this w) !! e with
          | Some [] => delete e (listeners (this w))
          | _ => listeners (this w)
          end
        /\ listeners (this (step JSON_parse (do_off e (Some cb))
                              (step JSON_parse (do_on e cb) w))) !! e
           = Some (default [] (listeners (this w) !! e))).
Proof.
  intros e cb w.
  assert (Hoff : listeners (this (step JSON_parse (do_off e (Some cb))
                                    (step JSON_parse (do_on e cb) w))) !! e
                 = Some (set_delete cb (default [] (listeners (this w) !! e)))).
  { rewrite off_listeners, on_listeners. rewrite !lookup_insert_eq.
    by rewrite set_delete_after_add. }
  split_and!.
  - by rewrite off_listeners, lookup_delete_eq.
  - exact Hoff.
  - intros Hfresh. unfold slot_ids in Hfresh. split.
    + rewrite unsubscribe_listeners, on_listeners. rewrite !lookup_insert_eq.
      rewrite set_delete_add by done.
      destruct (listeners (this w) !! e) as [ls|] eqn:Hl; simpl.
      * destruct ls as [|c ls]; simpl.
        -- by rewrite delete_insert_eq.
        -- rewrite insert_insert_eq. by apply insert_id.
      * rewrite delete_insert_eq. by apply delete_id.
    + rewrite set_delete_fresh in Hoff by exact Hfresh. exact Hoff.
Qed.

(** The browser's events, [connect] and [disconnect] leave the registry as
    it is or empty it. *)
Lemma step_listeners_kept_or_cleared (h : happening) (w : World) :
  match h with
  | do_on _ _ | do_unsubscribe _ _ | do_off _ _ => True
  | _ => listeners (this (step JSON_parse h w)) = listeners (this w)
         \/ listeners (this (step JSON_parse h w)) = ∅
  end.
Proof.
  destruct h as [| |e cb|e cb|e cb|type ev|t]; try done; grind; eauto.
Qed.

Lemma slot_ids_insert (e e' : string) (ls : list Listener) (s : LiveGoStream) :
  slot_ids e (upd_listeners (<[e' := ls]> (listeners s)) s)
  = if String.eqb e' e then map cb_id ls else slot_ids e s.
Proof.
  unfold slot_ids. simpl. destruct (String.eqb_spec e' e) as [->|Hne].
  - by rewrite lookup_insert_eq.
  - by rewrite lookup_insert_ne.
Qed.

Lemma handled_not_registered (e : string) (n : nat) (s : LiveGoStream)
    (ev : MessageEvent) (eventType : option string) :
  n ∉ slot_ids e s ->
  filter (fun o => is_call_of e n o) (handled JSON_parse s ev eventType) = [].
Proof.
  intros Hfree. apply filter_none. apply Forall_forall. intros o Ho.
  destruct o as [| | | | | | | |type m d|]; try done.
  simpl. destruct (String.eqb_spec type e) as [->|]; [|done].
  destruct (Nat.eqb_spec m n) as [->|]; [|done].
  apply handled_members in Ho as (_ & _ & ls & cb & Hls & Hcb & Hid).
  exfalso. apply Hfree. unfold slot_ids, Listener in *. rewrite Hls. simpl.
  rewrite <- Hid. by apply list_elem_of_fmap_2.
Qed.

(** An identity that is not registered for a type stays unregistered
    until somebody registers it. *)
Lemma step_not_registered (e : string) (n : nat) (h : happening) (w : World) :
  n ∉ slot_ids e (this w) ->
  registers e n h = false ->
  n ∉ slot_ids e (this (step JSON_parse h w)).
Proof.
  intros Hfree Hreg.
  pose proof (step_listeners_kept_or_cleared h w) as Hk.
  destruct h as [| |e' cb|e' cb|e' cb|type ev|t];
    try (unfold slot_ids in *; destruct Hk as [-> | ->];
         [exact Hfree | rewrite lookup_empty; apply not_elem_of_nil]).
  - unfold slot_ids in *. rewrite on_listeners.
    destruct (String.eqb_spec e' e) as [->|Hne].
    + rewrite lookup_insert_eq. simpl. rewrite set_add_ids.
      destruct (existsb (same_cb cb) _); [exact Hfree|].
      intros Hin. apply elem_of_app in Hin as [Hin|Hin]; [by apply Hfree|].
      apply list_elem_of_singleton in Hin. simpl in Hreg.
      rewrite String.eqb_refl in Hreg. simpl in Hreg.
      apply Nat.eqb_neq in Hreg. by apply Hreg.
    + by rewrite lookup_insert_ne.
  - unfold slot_ids in *. rewrite unsubscribe_listeners.
    destruct (listeners (this w) !! e') as [ls|] eqn:Hl; [|exact Hfree].
    destruct (String.eqb_spec e' e) as [->|Hne].
    + unfold Listener in *. rewrite Hl in Hfree. simpl in Hfree.
      destruct (Nat.eqb (length (set_delete cb ls)) 0).
      * rewrite lookup_delete_eq. apply not_elem_of_nil.
      * rewrite lookup_insert_eq. simpl. rewrite set_delete_ids.
        intros Hin. apply list_elem_of_filter in Hin as [_ Hin]. by apply Hfree.
    + destruct (Nat.eqb (length (set_delete cb ls)) 0).
      * by rewrite lookup_delete_ne.
      * by rewrite lookup_insert_ne.
  - unfold slot_ids in *. rewrite off_listeners.
    destruct cb as [c|].
    + destruct (listeners (this w) !! e') as [ls|] eqn:Hl; [|exact Hfree].
      destruct (String.eqb_spec e' e) as [->|Hne].
      * unfold Listener in *. rewrite Hl in Hfree. simpl in Hfree.
        rewrite lookup_insert_eq. simpl. rewrite set_delete_ids.
        intros Hin. apply list_elem_of_filter in Hin as [_ Hin]. by apply Hfree.
      * by rewrite lookup_insert_ne.
    + destruct (String.eqb_spec e' e) as [->|Hne].
      * rewrite lookup_delete_eq. apply not_elem_of_nil.
      * by rewrite lookup_delete_ne.
Qed.

(** A listener that is not registered for a type is not called under that
    type. *)
Lemma step_not_called (e : string) (n : nat) (h : happening) (w : World) :
  n ∉ slot_ids e (this w) ->
  filter (fun o => is_call_of e n o) (log (step JSON_parse h w))
  = filter (fun o => is_call_of e n o) (log w).
Proof.
  intros Hfree.
  assert (Hh : forall s ev et,
             listeners s = listeners (this w) \/ listeners s = ∅ ->
             filter (fun o => is_call_of e n o) (handled JSON_parse s ev et) = []).
  { intros s ev et Hs. apply handled_not_registered. unfold slot_ids in *.
    destruct Hs as [-> | ->]; [exact Hfree|].
    rewrite lookup_empty. apply not_elem_of_nil. }
  destruct h as [| |e' cb|e' cb|e' cb|type ev|t]; grind;
    unfold add_log; simpl;
    rewrite ?filter_app; simpl;
    rewrite ?Hh by (simpl; auto);
    rewrite ?app_nil_r; try done.
Qed.

Lemma run_not_called (e : string) (n : nat) (hs : list happening) :
  forall (w w' : World),
    forallb (fun h => negb (registers e n h)) hs = true ->
    run JSON_parse hs w = Some w' ->
    n ∉ slot_ids e (this w) ->
    filter (fun o => is_call_of e n o) (log w')
    = filter (fun o => is_call_of e n o) (log w)
    /\ n ∉ slot_ids e (this w').
Proof.
  induction hs as [|h hs IH]; intros w w' Hreg Hrun Hfree.
  - simpl in Hrun. by simplify_eq.
  - simpl in Hrun, Hreg. destruct (possible h w); [|done].
    apply andb_prop in Hreg as [Hh Hreg]. apply negb_true_iff in Hh.
    destruct (IH _ _ Hreg Hrun) as [Hlog Hslot].
    { by apply step_not_registered. }
    split; [|exact Hslot].
    rewrite Hlog. by apply step_not_called.
Qed.

(** X20. Once a listener has been removed from a type, by the closure
    [on] returned or by [off] with or without the callback, it is never
    called under that type again, whatever happens to the channel, until
    somebody registers it for that type again. *)
Theorem removed_listener_is_not_called :
  forall (e : string) (cb : Listener) (removal : happening)
         (hs : list happening) (w w' : World),
    removal = do_unsubscribe e cb \/ removal = do_off e (Some cb)
    \/ removal = do_off e None ->
    forallb (fun h => negb (registers e (cb_id cb) h)) hs = true ->
    run JSON_parse hs (step JSON_parse removal w) = Some w' ->
    filter (fun o => is_call_of e (cb_id cb) o) (log w')
    = filter (fun o => is_call_of e (cb_id cb) o) (log w)
    /\ cb_id cb ∉ slot_ids e (this w').
Proof.
  intros e cb removal hs w w' Hrem Hreg Hrun.
  assert (Hfree : cb_id cb ∉ slot_ids e (this (step JSON_parse removal w))).
  { unfold slot_ids.
    destruct Hrem as [-> | [-> | ->]].
    - rewrite unsubscribe_listeners.
      destruct (listeners (this w) !! e) as [ls|] eqn:Hl.
      + destruct (Nat.eqb (length (set_delete cb ls)) 0).
        * rewrite lookup_delete_eq. apply not_elem_of_nil.
        * rewrite lookup_insert_eq. simpl. rewrite set_delete_ids.
          intros Hin. apply list_elem_of_filter in Hin as [Hne _]. by apply Hne.
      + unfold Listener in *. rewrite Hl. apply not_elem_of_nil.
    - rewrite off_listeners.
      destruct (listeners (this w) !! e) as [ls|] eqn:Hl.
      + rewrite lookup_insert_eq. simpl. rewrite set_delete_ids.
        intros Hin. apply list_elem_of_filter in Hin as [Hne _]. by apply Hne.
      + unfold Listener in *. rewrite Hl. apply not_elem_of_nil.
    - rewrite off_listeners, lookup_delete_eq. apply not_elem_of_nil. }
  destruct (run_not_called e (cb_id cb) hs _ _ Hreg Hrun Hfree) as [Hlog Hslot].
  split; [|exact Hslot].
  rewrite Hlog.
  destruct Hrem as [-> | [-> | ->]]; grind;
    unfold add_log; simpl; rewrite ?filter_app; simpl;
    rewrite ?app_nil_r; done.
Qed.

Lemma opened_urls_app (l l' : list obs) :
  opened_urls (l ++ l') = opened_urls l ++ opened_urls l'.
Proof. unfold opened_urls. apply omap_app. Qed.

Lemma opened_urls_handled (s : LiveGoStream) (ev : MessageEvent)
    (eventType : option string) :
  opened_urls (handled JSON_parse s ev eventType) = [].
Proof.
  pose proof (handled_dispatch_entries JSON_parse s ev eventType) as H.
  induction H as [|o l Ho Hl IH]; [done|].
  change (o :: l) with ([o] ++ l). rewrite opened_urls_app, IH.
  by destruct o.
Qed.

Lemma step_opens_own_url (h : happening) (w : World) :
  stream_url (this (step JSON_parse h w)) = stream_url (this w)
  /\ exists new,
       opened_urls (log (step JSON_parse h w)) = opened_urls (log w) ++ new
       /\ Forall (eq (stream_url (this w))) new.
Proof.
  destruct h as [| |e cb|e cb|e cb|type ev|t]; grind;
    unfold add_log; simpl;
    (split; [done|]);
    rewrite ?opened_urls_app, ?opened_urls_handled; simpl;
    rewrite ?app_nil_r;
    first [ by exists [] ; rewrite ?app_nil_r
          | eexists [_]; split; [reflexivity|by repeat constructor] ].
Qed.

Lemma run_opens_own_url (hs : list happening) :
  forall (w w' : World),
    run JSON_parse hs w = Some w' ->
    Forall (eq (stream_url (this w))) (opened_urls (log w)) ->
    stream_url (this w') = stream_url (this w)
    /\ Forall (eq (stream_url (this w))) (opened_urls (log w')).
Proof.
  induction hs as [|h hs IH]; intros w w' Hrun Hinv.
  - simpl in Hrun. by simplify_eq.
  - simpl in Hrun. destruct (possible h w); [|done].
    destruct (step_opens_own_url h w) as (Hu & new & Hlog & Hnew).
    destruct (IH _ _ Hrun) as [Hu' Hall].
    { rewrite Hu, Hlog. by apply Forall_app. }
    rewrite Hu in Hu', Hall. by split.
Qed.

(** X21. Every source a channel ever creates, on [connect] or on an
    automatic reconnect, is opened at one address, fixed when the channel
    is constructed: the endpoint of the options, or the configured global
    endpoint when the options give none or an empty one, followed by the
    stream path with the component id and the signature. Reconfiguring the
    global endpoint afterwards does not redirect an existing channel. *)
Theorem sources_open_the_constructed_address :
  forall (g : Config.Config) (cid sig : string) (opts : StreamOptions)
         (hs : list happening) (w : World),
    run JSON_parse hs
        (new_World (new_LiveGoStream (Config.getEndpoint g) cid sig opts))
    = Some w ->
    Forall (eq (or_string (endpoint opts) (Config.getEndpoint g)
                ++ "/livego/stream?component_id=" ++ cid
                ++ "&signature=" ++ sig)%string)
           (opened_urls (log w)).
Proof.
  intros g cid sig opts hs w Hrun.
  destruct (run_opens_own_url hs _ _ Hrun) as [_ H]; [constructor|].
  exact H.
Qed.

(** X22. [disconnect] always drops the source and the recorded timer, but
    it empties the registry only when it returns: when the disconnect
    callback throws, the call of [listeners.clear()] after it is skipped,
    the exception reaches the caller and every listener stays
    registered. *)
Theorem disconnect_clears_registry_unless_callback_throws :
  forall (w : World),
    eventSource (this (snd (disconnect w))) = None
    /\ reconnectTimeout (this (snd (disconnect w))) = None
    /\ match fst (disconnect w) with
       | Ok _ => listeners (this (snd (disconnect w))) = ∅
       | Raise e =>
           listeners (this (snd (disconnect w))) = listeners (this w)
           /\ exists cb, is_Some (eventSource (this w))
                         /\ onDisconnect (options (this w)) = Some cb
                         /\ cb_run cb tt = Some e
       end
    /\ (forall cb e,
          is_Some (eventSource (this w)) ->
          onDisconnect (options (this w)) = Some cb ->
          cb_run cb tt = Some e ->
          fst (disconnect w) = Raise e).
Proof.
  intros w. split_and!.
  - by destruct (disconnect_fields w) as (H & _).
  - by destruct (disconnect_fields w) as (_ & H & _).
  - grind; (split; [done|eexists; split_and!; eauto]).
  - intros cb e [es Hes] Hcb Hrun. grind.
Qed.

End ChannelRegistry.

(** * The configuration and the transport *)

Section Transport.

Import Config Client.

(** X23. Options handed to a component act like a [configure] call made
    just before: the client the constructor builds from options [o] is the
    client it would build without options after [configure(o)]. A second
    [configure] with the same options changes nothing, and an absent or
    empty endpoint leaves the configured endpoint alone. *)
Theorem options_act_like_configure :
  forall (o : Options) (g : Config),
    client_of o g
    = client_of {| endpoint := None; credentials := None; headers := None |}
                (configure o g)
    /\ configure o (configure o g) = configure o g
    /\ (truthy (endpoint o) = None ->
        getEndpoint (configure o g) = getEndpoint g).
Proof.
  intros [e c h] g. unfold client_of, configure. simpl.
  destruct (truthy e) as [e'|] eqn:He, c as [c'|], h as [h'|]; simpl;
    split_and!; done.
Qed.

(** X24. The headers of a request, key by key: the header of the call if
    it names the key, else the client's header, else the JSON content type
    for [Content-Type] and nothing otherwise. The client's headers are the
    component's when its options carry any, even an empty object: they
    replace the configured global headers and are not merged with them. *)
Theorem header_precedence :
  forall (o : Options) (g : Config) (init : RequestInit) (k : string),
    merged_headers (client_of o g) init !! k
    = match default ∅ (ri_headers init) !! k with
      | Some v => Some v
      | None =>
          match default (getHeaders g) (headers o) !! k with
          | Some v => Some v
          | None => if String.eqb k "Content-Type"
                    then Some "application/json" else None
          end
      end.
Proof.
  intros o g init k. unfold merged_headers, client_of. simpl.
  rewrite !lookup_union.
  destruct (default ∅ (ri_headers init) !! k) as [v|]; simpl.
  { by rewrite !union_Some_l. }
  rewrite (left_id None _).
  destruct (default (getHeaders g) (headers o) !! k) as [v|]; simpl.
  { by rewrite !union_Some_l. }
  rewrite (left_id None _).
  destruct (String.eqb_spec k "Content-Type") as [->|Hne].
  - by rewrite lookup_singleton_eq.
  - by rewrite lookup_singleton_ne.
Qed.

Lemma or_else_nonempty (a b : string) : b <> "" -> or_else a b <> "".
Proof.
  unfold or_else. intros Hb. by destruct (String.eqb_spec a "").
Qed.

Lemma post_outcome (c : LiveGoClient) (path body : string)
    (settled : exn + Response) (l : list obs) :
  snd (post c path body settled l) = l ++ [request_of c path body]
  /\ fst (post c path body settled l)
     = match settled with
       | inl e => Raise e
       | inr r =>
           if ok r
           then match json r with Some v => Ok v | None => Raise SyntaxError end
           else Raise (parseError r)
       end.
Proof.
  unfold post, fetch, bind, modify, throw, ret, request_of, merged_headers. simpl.
  rewrite (left_id ∅ _).
  destruct settled as [e|r]; [done|].
  destruct (ok r); simpl; [|done]. by destruct (json r).
Qed.

Section Stringified.

Variable JSON_stringify_mount : Component.MountRequest -> string.
Variable JSON_stringify_update : Component.UpdateRequest -> string.

(** X25. [mount] and [update] make exactly one [POST] request each, to the
    client's endpoint followed by [/mount] or [/update], with the client's
    credentials mode and headers. They resolve only with the parsed body of
    a response that is [ok]; a rejected [fetch] is passed on, an [ok]
    response whose body does not parse rejects with the parser's error, and
    a response that is not [ok] rejects with its parsed body or, when that
    does not parse, with an [HTTP_ERROR] payload that carries the status
    code and a message that is never empty. *)
Theorem transport_outcomes :
  forall (c : LiveGoClient) (m : Component.MountRequest)
         (u : Component.UpdateRequest) (settled : exn + Response)
         (l : list obs),
    let expected :=
      match settled with
      | inl e => Raise e
      | inr r =>
          if ok r
          then match json r with Some v => Ok v | None => Raise SyntaxError end
          else match json r with
               | Some body => Raise (Thrown body)
               | None =>
                   Raise (ErrorPayload
                            {| error := "HTTP_ERROR";
                               message := if String.eqb (statusText r) ""
                                          then "Unknown error" else statusText r;
                               code := status r; details := None |})
               end
      end in
    mount JSON_stringify_mount c m settled l
    = (expected, l ++ [request_of c "/mount" (JSON_stringify_mount m)])
    /\ update JSON_stringify_update c u settled l
       = (expected, l ++ [request_of c "/update" (JSON_stringify_update u)])
    /\ (forall r p, parseError r = ErrorPayload p -> message p <> "").
Proof.
  intros c m u settled l expected.
  assert (He : forall path body,
             post c path body settled l = (expected, l ++ [request_of c path body])).
  { intros path body.
    destruct (post_outcome c path body settled l) as [Hl Hr].
    rewrite (surjective_pairing (post c path body settled l)), Hl, Hr.
    f_equal. unfold expected, parseError, or_else.
    destruct settled as [e|r]; [done|]. destruct (ok r); [done|].
    by destruct (json r). }
  split_and!.
  - apply He.
  - apply He.
  - intros r p Hp. unfold parseError in Hp.
    destruct (json r); [done|]. simplify_eq. simpl.
    by apply or_else_nonempty.
Qed.

End Stringified.

End Transport.

(** * More scenarios *)

Section ChannelScenarios.

Import Stream.

(** A channel that is connected twice, fails, reconnects by its timer, is
    disconnected and connected again. *)
Lemma at_most_one_source_witness :
  let hs := [do_connect; do_connect; fires "error" frame; expires 1;
             do_disconnect; do_connect] in
  let w := after parse_all hs (fresh no_options) in
  run parse_all hs (fresh no_options) = Some w
  /\ opened (log w) = closed (log w) + held (this w)
  /\ connect w = (Ok tt, w).
Proof.
  intros hs w.
  assert (Hrun : run parse_all hs (fresh no_options) = Some w)
    by (vm_compute; reflexivity).
  destruct (at_most_one_source parse_all "/api/livego" "c1" "s1" no_options hs w Hrun)
    as [Hcount Hidem].
  split; [exact Hrun|]. split; [exact Hcount|].
  apply Hidem. vm_compute. reflexivity.
Defined.

(** Seven failures in a row with every reconnect in between. *)
Lemma retry_counter_is_bounded_witness :
  let hs := [do_connect;
             fires "error" frame; expires 1; fires "error" frame; expires 2;
             fires "error" frame; expires 3; fires "error" frame; expires 4;
             fires "error" frame; expires 5; fires "error" frame;
             do_connect; fires "error" frame] in
  let w := after parse_all hs (fresh no_options) in
  run parse_all hs (fresh no_options) = Some w
  /\ reconnectAttempts (this w) <= 5.
Proof.
  intros hs w.
  assert (Hrun : run parse_all hs (fresh no_options) = Some w)
    by (vm_compute; reflexivity).
  destruct (retry_counter_is_bounded parse_all "/api/livego" "c1" "s1" no_options
              hs w Hrun) as [Hle _].
  split; [exact Hrun | exact Hle].
Defined.

(** A channel built with [reconnect: false], connected. *)
Lemma reconnect_disabled_witness :
  let hs := [do_on "progress" (quiet 1); do_connect; fires "progress" frame] in
  let w := after parse_all hs (fresh without_reconnect) in
  run parse_all hs (fresh without_reconnect) = Some w
  /\ timers w = []
  /\ eventSource (this (step parse_all (fires "error" frame) w)) = None.
Proof.
  intros hs w.
  assert (Hrun : run parse_all hs (fresh without_reconnect) = Some w)
    by (vm_compute; reflexivity).
  destruct (reconnect_disabled_never_schedules parse_all "/api/livego" "c1" "s1"
              without_reconnect hs w Hrun eq_refl) as (Ht & _ & _ & Herr).
  split; [exact Hrun|]. split; [exact Ht|].
  assert (Hq : returns (onError without_reconnect))
    by (intros cb arg Hcb; discriminate Hcb).
  assert (Hes : is_Some (eventSource (this w)))
    by (vm_compute; eexists; reflexivity).
  destruct (Herr Hq Hes frame) as [Hnone _]. exact Hnone.
Defined.

(** Two listeners for [progress] and one [progress] frame. *)
Lemma frame_reaches_listeners_witness :
  let w := after parse_all [do_on "progress" (quiet 1); do_on "progress" (quiet 2);
                            do_connect] (fresh no_options) in
  log (snd (handleMessage parse_all frame (Some "progress") w))
  = log w ++ [call_listener "progress" 1 JNull; call_listener "progress" 2 JNull].
Proof.
  intros w.
  assert (Hq : returns (onEvent (options (this w))))
    by (intros cb arg Hcb; vm_compute in Hcb; discriminate Hcb).
  assert (Hl : listeners (this w) !! or_string (Some "progress") "message"
               = Some [quiet 1; quiet 2]) by (vm_compute; reflexivity).
  assert (Hr : Forall (fun c : Listener => cb_run c JNull = None) [quiet 1; quiet 2])
    by (repeat constructor).
  rewrite (frame_reaches_listeners_in_order parse_all frame (Some "progress") w
             JNull [quiet 1; quiet 2] eq_refl Hq Hl Hr).
  vm_compute. reflexivity.
Defined.

(** A global handler that throws, and a listener for plain messages. *)
Lemma throwing_global_handler_witness :
  let w := after parse_all [do_on "message" (quiet 1); do_connect]
                 (fresh with_raising_onEvent) in
  log (snd (handleMessage parse_all frame None w))
  = log w ++ [call_onEvent {| event := "message"; data := JNull; id := "" |};
              parse_failure].
Proof.
  intros w.
  rewrite (throwing_global_handler_skips_listeners parse_all frame None w JNull
             {| cb_id := 8; cb_run := fun _ => Some (Error "handler failed") |}
             (Error "handler failed") eq_refl eq_refl eq_refl).
  reflexivity.
Defined.

(** The call a [progress] frame makes names a registered listener. *)
Lemma listeners_called_for_their_type_witness :
  let w := after parse_all [do_on "progress" (quiet 1); do_on "notification" (quiet 2);
                            do_connect] (fresh no_options) in
  call_listener "progress" 1 JNull
    ∈ log (snd (handleMessage parse_all frame (Some "progress") w))
  /\ 1 ∈ slot_ids "progress" (this w).
Proof.
  intros w.
  assert (Hin : call_listener "progress" 1 JNull
                  ∈ log (snd (handleMessage parse_all frame (Some "progress") w))).
  { apply list_elem_of_In. vm_compute. right. left. reflexivity. }
  split; [exact Hin|].
  destruct (listeners_are_called_for_their_type_only parse_all frame (Some "progress")
              w "progress" 1 JNull Hin) as [Hold | (_ & _ & Hslot)].
  - exfalso. apply list_elem_of_In in Hold. vm_compute in Hold.
    destruct Hold as [Hold | []]. discriminate Hold.
  - exact Hslot.
Defined.

(** A failed connection with its reconnect pending, then [disconnect()]. *)
Lemma disconnect_cancels_timer_witness :
  let w := after parse_all [do_connect; fires "error" frame] (fresh no_options) in
  possible (expires 1) w = true
  /\ possible (expires 1) (snd (disconnect w)) = false.
Proof.
  intros w. split; [vm_compute; reflexivity|].
  destruct (disconnect_cancels_recorded_timer w 1%positive eq_refl) as (_ & Hp & _).
  exact Hp.
Defined.

(** A second listener for a type that has one; and a listener for a type
    whose slot [off] has left empty. *)
Lemma on_unsubscribe_round_trip_witness :
  let w := after parse_all [do_on "progress" (quiet 2)] (fresh no_options) in
  let w0 := after parse_all [do_on "progress" (quiet 2);
                             do_off "progress" (Some (quiet 2))] (fresh no_options) in
  listeners (this (step parse_all (do_unsubscribe "progress" (quiet 1))
                     (step parse_all (do_on "progress" (quiet 1)) w)))
  = listeners (this w)
  /\ listeners (this w0) !! "progress" = Some []
  /\ listeners (this (step parse_all (do_unsubscribe "progress" (quiet 1))
                        (step parse_all (do_on "progress" (quiet 1)) w0)))
     = delete "progress" (listeners (this w0)).
Proof.
  intros w w0.
  assert (Hfresh : cb_id (quiet 1) ∉ slot_ids "progress" (this w)).
  { intros H. apply list_elem_of_In in H. vm_compute in H.
    destruct H as [H | []]. discriminate H. }
  assert (Hfresh0 : cb_id (quiet 1) ∉ slot_ids "progress" (this w0)).
  { intros H. apply list_elem_of_In in H. vm_compute in H. exact H. }
  destruct (on_unsubscribe_round_trip parse_all "progress" (quiet 1) w)
    as (_ & _ & Hback).
  destruct (on_unsubscribe_round_trip parse_all "progress" (quiet 1) w0)
    as (_ & _ & Hback0).
  destruct (Hback Hfresh) as [Hw _]. destruct (Hback0 Hfresh0) as [Hw0 _].
  split; [exact Hw|]. split; [vm_compute; reflexivity|]. exact Hw0.
Defined.

(** A listener is called once, removed, and frames keep arriving while
    another listener is registered. *)
Lemma removed_listener_witness :
  let w := after parse_all [do_on "progress" (quiet 1); do_connect;
                            fires "progress" frame] (fresh no_options) in
  let hs := [fires "progress" frame; do_on "progress" (quiet 2);
             fires "progress" frame] in
  let w' := after parse_all hs
                  (step parse_all (do_unsubscribe "progress" (quiet 1)) w) in
  run parse_all hs (step parse_all (do_unsubscribe "progress" (quiet 1)) w) = Some w'
  /\ filter (fun o => is_call_of "progress" 1 o) (log w')
     = filter (fun o => is_call_of "progress" 1 o) (log w)
  /\ filter (fun o => is_call_listener o) (log w')
     = [call_listener "progress" 1 JNull; call_listener "progress" 2 JNull].
Proof.
  intros w hs w'.
  assert (Hrun : run parse_all hs
                     (step parse_all (do_unsubscribe "progress" (quiet 1)) w)
                 = Some w') by (vm_compute; reflexivity).
  destruct (removed_listener_is_not_called parse_all "progress" (quiet 1)
              (do_unsubscribe "progress" (quiet 1)) hs w w'
              (or_introl eq_refl) eq_refl Hrun) as [Hlog _].
  split; [exact Hrun|]. split; [exact Hlog|]. vm_compute. reflexivity.
Defined.

(** A channel that reconnects once, built under the default configuration. *)
Lemma sources_open_the_constructed_address_witness :
  let hs := [do_connect; fires "error" frame; expires 1] in
  let w := after parse_all hs (fresh no_options) in
  run parse_all hs (fresh no_options) = Some w
  /\ Forall (eq "/api/livego/livego/stream?component_id=c1&signature=s1")
            (opened_urls (log w))
  /\ length (opened_urls (log w)) = 2.
Proof.
  intros hs w.
  assert (Hrun : run parse_all hs (fresh no_options) = Some w)
    by (vm_compute; reflexivity).
  split; [exact Hrun|]. split; [|vm_compute; reflexivity].
  exact (sources_open_the_constructed_address parse_all Config.initial "c1" "s1"
           no_options hs w Hrun).
Defined.

End ChannelScenarios.
